(** * transcribeSummarize.py: discovery filter and transcription driver

    A shallow embedding of [src/transcribeSummarize.py] and the properties
    of its two pieces: [get_files_recursive] (recursive discovery with a
    regular-expression filter and an exclusion substring) and
    [transcribe_file] / [transcribe_file_cli] (the skip/force policy and
    the two transcription strategies).

    Python strings are [string]; the Python values that flow through the
    program are [pyval]; exceptions are an explicit [outcome]; the file store
    and the calls to the collaborators (the [whisper] executable, the
    in-process [whisper] module, the directory listing) are threaded through
    a state-and-exception monad. *)

From Stdlib Require Import Ascii String List ZArith Bool Lia.
From stdpp Require Import base strings list gmap.

Set Warnings "-register-all".

(** * Part I: the embedding *)

(** ** Python values, exceptions and results *)

Module Py.

(** The exception classes the program can meet. [RuntimeError] stands for
    the class and its subclasses, which is what [except RuntimeError]
    catches; none of the other classes derives from it. *)
Inductive exn : Type :=
| RuntimeError (msg : string)
| TypeError
| KeyError
| AttributeError
| FileNotFoundError
| CalledProcessError (returncode : Z)
| OtherError (cls : string).

(** The values that reach [write], [return] and the subscript: strings,
    numbers, lists, dictionaries with string keys (in insertion order) and
    the [subprocess.CompletedProcess] object. *)
Inductive pyval : Type :=
| PyNone
| PyStr (s : string)
| PyInt (n : Z)
| PyList (items : list pyval)
| PyDict (items : list (string * pyval))
| PyCompletedProcess (args : list string) (returncode : Z).

(** Evaluation of a Python expression or call: a value, or a raised
    exception. *)
Inductive outcome (A : Type) : Type :=
| Return (a : A)
| Raise (e : exn).

Arguments Return {A} a.
Arguments Raise {A} e.

Fixpoint assoc (k : string) (items : list (string * pyval)) : option pyval :=
  match items with
  | [] => None
  | (k', v) :: rest => if String.eqb k k' then Some v else assoc k rest
  end.

(** [v[key]] for a string key: a dictionary looks the key up and raises
    [KeyError] when it is absent; a string, a list or any other value
    raises [TypeError]. *)
Definition subscript (v : pyval) (key : string) : outcome pyval :=
  match v with
  | PyDict items =>
      match assoc key items with
      | Some x => Return x
      | None => Raise KeyError
      end
  | _ => Raise TypeError
  end.

End Py.

Export Py.

(** ** Strings *)

Module Str.

(** [needle in hay] on Python strings: [needle] occurs as a contiguous run
    somewhere in [hay]. *)
Fixpoint contains (needle hay : string) : bool :=
  String.prefix needle hay
  || match hay with
     | EmptyString => false
     | String _ hay' => contains needle hay'
     end.

(** [s.rfind(c)]: the index of the last occurrence of [c], if any. *)
Fixpoint rfind (c : ascii) (s : string) : option nat :=
  match s with
  | EmptyString => None
  | String a s' =>
      match rfind c s' with
      | Some i => Some (S i)
      | None => if Ascii.eqb a c then Some 0 else None
      end
  end.

(** The first segment of [s.split("/")] and the list of the others. *)
Fixpoint split1 (s : string) : string * list string :=
  match s with
  | EmptyString => (EmptyString, [])
  | String c s' =>
      let '(seg, segs) := split1 s' in
      if Ascii.eqb c "/" then (EmptyString, seg :: segs)
      else (String c seg, segs)
  end.

(** [s.split("/")] *)
Definition split_slash (s : string) : list string :=
  let '(seg, segs) := split1 s in seg :: segs.

(** [s.lstrip("/")] *)
Fixpoint lstrip_slash (s : string) : string :=
  match s with
  | String c s' => if Ascii.eqb c "/" then lstrip_slash s' else s
  | EmptyString => EmptyString
  end.

(** ["/".join(parts)] *)
Fixpoint join_slash (parts : list string) : string :=
  match parts with
  | [] => ""
  | [x] => x
  | x :: rest => x +:+ "/" +:+ join_slash rest
  end.

Fixpoint no_slash (s : string) : bool :=
  match s with
  | EmptyString => true
  | String c s' => negb (Ascii.eqb c "/") && no_slash s'
  end.

End Str.

(** ** The fragment of Python's [re] used by the program

    [re.compile(r".*\.(wav|mp3|mp4|avi|mov|flv|mkv|wmv)$")] uses the dot,
    literal runs, concatenation, alternation, the star and the end anchor,
    with no flags: the dot matches any character but a newline, and [$]
    matches at the end of the string or just before a newline that ends
    the string. *)

Module Re.

Inductive re : Type :=
| Dot
| Lit (s : string)
| Cat (r1 r2 : re)
| Alt (r1 r2 : re)
| Star (r : re)
| Eol.

Definition newline : ascii := "010"%char.
Definition nl : string := String newline "".

(** [strip_prefix lit s]: what is left of [s] after the literal [lit]. *)
Fixpoint strip_prefix (lit s : string) : option string :=
  match lit, s with
  | EmptyString, _ => Some s
  | String c lit', String d s' =>
      if Ascii.eqb c d then strip_prefix lit' s' else None
  | String _ _, EmptyString => None
  end.

Definition at_eol (s : string) : bool :=
  String.eqb s "" || String.eqb s nl.

(** A backtracking matcher in continuation-passing style: [run r s k] tries
    every way for [r] to consume a prefix of [s] and hands the rest to [k].
    The star gives up an iteration that consumes nothing, so the length of
    the input bounds the number of iterations. *)
Fixpoint run (r : re) (s : string) (k : string -> bool) {struct r} : bool :=
  match r with
  | Dot =>
      match s with
      | String c s' => negb (Ascii.eqb c newline) && k s'
      | EmptyString => false
      end
  | Lit lit =>
      match strip_prefix lit s with
      | Some s' => k s'
      | None => false
      end
  | Cat r1 r2 => run r1 s (fun s1 => run r2 s1 k)
  | Alt r1 r2 => run r1 s k || run r2 s k
  | Star r1 =>
      (fix star (fuel : nat) (s : string) {struct fuel} : bool :=
         match fuel with
         | O => k s
         | S fuel' =>
             run r1 s (fun s1 =>
               (String.length s1 <? String.length s)%nat && star fuel' s1)
             || k s
         end) (String.length s) s
  | Eol => at_eol s && k s
  end.

(** [pattern.match(s)]: the pattern matches at the start of [s]; the match
    need not reach the end. The result is the truth value of the match
    object. *)
Definition match_ (r : re) (s : string) : bool := run r s (fun _ => true).

Definition extensions : list string :=
  ["wav"; "mp3"; "mp4"; "avi"; "mov"; "flv"; "mkv"; "wmv"].

(** [r".*\.(wav|mp3|mp4|avi|mov|flv|mkv|wmv)$"] *)
Definition default_pattern : re :=
  Cat (Star Dot)
    (Cat (Lit ".")
       (Cat (Alt (Lit "wav") (Alt (Lit "mp3") (Alt (Lit "mp4")
             (Alt (Lit "avi") (Alt (Lit "mov") (Alt (Lit "flv")
             (Alt (Lit "mkv") (Lit "wmv"))))))))
          Eol)).

(** [matches r s s']: [r] can consume a prefix of [s] and leave [s']. This
    is the reading of the pattern language that [run] is checked against. *)
Inductive matches : re -> string -> string -> Prop :=
| m_dot c s : c <> newline -> matches Dot (String c s) s
| m_lit lit s : matches (Lit lit) (lit +:+ s) s
| m_cat r1 r2 s s1 s2 :
    matches r1 s s1 -> matches r2 s1 s2 -> matches (Cat r1 r2) s s2
| m_alt_l r1 r2 s s' : matches r1 s s' -> matches (Alt r1 r2) s s'
| m_alt_r r1 r2 s s' : matches r2 s s' -> matches (Alt r1 r2) s s'
| m_star_nil r s : matches (Star r) s s
| m_star_cons r s s1 s2 :
    matches r s s1 -> String.length s1 < String.length s ->
    matches (Star r) s1 s2 -> matches (Star r) s s2
| m_eol s : s = "" \/ s = nl -> matches Eol s s.

Fixpoint no_newline (s : string) : bool :=
  match s with
  | EmptyString => true
  | String c s' => negb (Ascii.eqb c newline) && no_newline s'
  end.

End Re.

(** ** [pathlib.PurePosixPath]

    A path is its root (empty, one slash, or exactly two slashes) and the
    list of its components; parsing drops empty components and single
    dots, and keeps double dots. *)

Module Pathlib.

Record path : Type := Path { root : string; parts : list string }.

(** A component that parsing keeps. *)
Definition is_part (seg : string) : bool :=
  negb (String.eqb seg "") && negb (String.eqb seg ".").

Definition components (s : string) : list string :=
  filter (fun seg => is_part seg = true) (Str.split_slash s).

(** [pathlib.Path(s)] *)
Definition parse (s : string) : path :=
  let rel := Str.lstrip_slash s in
  let slashes := String.length s - String.length rel in
  {| root := if (slashes =? 0)%nat then ""
             else if (slashes =? 2)%nat then "//" else "/";
     parts := components rel |}.

(** [str(p)] *)
Definition to_str (p : path) : string :=
  match root p, parts p with
  | EmptyString, [] => "."
  | r, ps => r +:+ Str.join_slash ps
  end.

(** [p.parent]: the path without its last component; a path with no
    component is its own parent. *)
Definition parent (p : path) : path :=
  match parts p with
  | [] => p
  | ps => {| root := root p; parts := List.removelast ps |}
  end.

(** [p.name] *)
Definition name (p : path) : string := List.last (parts p) "". 

(** The index at which [p.suffix] starts: the last dot of the name, unless
    it is the first or the last character. *)
Definition suffix_index (nm : string) : option nat :=
  match Str.rfind "." nm with
  | Some i =>
      if (0 <? i)%nat && (i <? String.length nm - 1)%nat
      then Some i else None
  | None => None
  end.

(** [p.suffix] *)
Definition suffix (p : path) : string :=
  match suffix_index (name p) with
  | Some i => String.substring i (String.length (name p) - i) (name p)
  | None => ""
  end.

(** [p.stem] *)
Definition stem (p : path) : string :=
  match suffix_index (name p) with
  | Some i => String.substring 0 i (name p)
  | None => name p
  end.

(** [p / child] for a single component [child], as the traversal forms
    the paths it yields. *)
Definition joinpath (p : path) (child : string) : path :=
  {| root := root p; parts := parts p ++ [child] |}.

End Pathlib.

(** ** The file system *)

Module Fs.

(** What a directory holds, as the traversal sees it: regular files and
    sub-directories, each under its name. *)
Inductive entry : Type :=
| File (name : string)
| Folder (name : string) (children : list entry).

Definition entry_name (e : entry) : string :=
  match e with
  | File n => n
  | Folder n _ => n
  end.

Definition is_file (e : entry) : bool :=
  match e with
  | File _ => true
  | Folder _ _ => false
  end.

(** The entries of the directory [dir], each with its path, followed by
    what lies below each sub-directory. *)
Definition scan_dir
    (below : Pathlib.path -> entry -> list (Pathlib.path * entry))
    (dir : Pathlib.path) (es : list entry) : list (Pathlib.path * entry) :=
  map (fun e => (Pathlib.joinpath dir (entry_name e), e)) es
  ++ flat_map (below dir) es.

(** What lies below the entry [e] of the directory [dir]. *)
Fixpoint below (dir : Pathlib.path) (e : entry) {struct e}
    : list (Pathlib.path * entry) :=
  match e with
  | File _ => []
  | Folder n children => scan_dir below (Pathlib.joinpath dir n) children
  end.

(** [p.rglob("*")]: every entry below the directory, files and
    directories alike, hidden ones included; the directory itself is not
    yielded. Each directory is listed before the directories under it. *)
Definition rglob_entries (dir : Pathlib.path) (es : list entry)
    : list (Pathlib.path * entry) :=
  scan_dir below dir es.

Definition rglob (dir : Pathlib.path) (es : list entry) : list Pathlib.path :=
  map fst (rglob_entries dir es).

(** Where a path string leads: whether it starts at the root, and the
    components to walk. Repeated slashes and single dots do not matter to
    the kernel's path resolution; double dots are kept as components, so
    two strings with the same location name the same file. *)
Definition location : Type := bool * list string.

Definition resolve (s : string) : location :=
  (String.prefix "/" s, Pathlib.components s).

End Fs.

(** ** The collaborators and the state of a run *)

(** How a run of the external executable ends: it exits with a status
    after writing [stdout] to its standard output, or it cannot be
    started at all. *)
Inductive proc_outcome : Type :=
| Exited (returncode : Z) (stdout : string)
| NotStarted.

(** The collaborators the program reaches but does not contain: the
    directory listing, the [whisper] executable, and the in-process
    [whisper] module ([whisper.load_model] and the [transcribe] method of
    the model it returns). *)
Record env : Type := Env {
  listing : string -> list Fs.entry;
  whisper_cli : list string -> proc_outcome;
  model_type : Type;
  load_model : string -> outcome model_type;
  model_transcribe : model_type -> string -> outcome pyval
}.

(** The trace records the lines ["Attempting f"] and ["Skipping f"] that
    [transcribe_file] prints, the lines that the [discover] command
    prints, and every call to a collaborator. The other diagnostics
    (["Forcing ..."], ["Working in ..."], ["Transcribed Complete ..."]
    and the like, some of which embed wall-clock durations) are not
    recorded; [time.time()] has no other use in the program. *)
Inductive event : Type :=
| Attempting (file : string)
| Skipping (file : string)
| Printed (line : string)
| Spawned (cmd_list : list string)
| ModelLoaded (modelType : string)
| ModelRun (file : string).

(** The regular files, by location, with their contents, and the trace
    so far. *)
Record world : Type := World {
  files : gmap Fs.location string;
  trace : list event
}.

(** Computations: they read and change the world and either return a
    value or raise; what was done before an exception stays done. *)
Definition M (A : Type) : Type := world -> outcome A * world.

Definition pure {A : Type} (a : A) : M A := fun w => (Return a, w).

Definition raise {A : Type} (e : exn) : M A := fun w => (Raise e, w).

Definition bind {A B : Type} (m : M A) (k : A -> M B) : M B :=
  fun w =>
    match m w with
    | (Return a, w') => k a w'
    | (Raise e, w') => (Raise e, w')
    end.

Declare Scope py_scope.
Delimit Scope py_scope with py.
Notation "x <- m ;; k" := (bind m (fun x => k))
  (at level 100, m at next level, right associativity) : py_scope.
Notation "m ;; k" := (bind m (fun _ => k))
  (at level 100, right associativity) : py_scope.
Local Open Scope py_scope.

Definition lift {A : Type} (o : outcome A) : M A := fun w => (o, w).

(** [try: body except RuntimeError: handler] *)
Definition try_except_RuntimeError {A : Type} (body : M A)
    (handler : string -> M A) : M A :=
  fun w =>
    match body w with
    | (Raise (RuntimeError msg), w') => handler msg w'
    | r => r
    end.

Definition emit (e : event) : M unit :=
  fun w => (Return tt, {| files := files w; trace := trace w ++ [e] |}).

(** [pathlib.Path(s).exists()] *)
Definition path_exists (s : string) : M bool :=
  fun w =>
    (Return (bool_decide
       (is_Some (files w !! Fs.resolve (Pathlib.to_str (Pathlib.parse s))))),
     w).

(** [open(s, "w", encoding="utf-8")]: the file is created, or emptied when
    it is there already; the handle is the location written to. The
    directory of the target is taken to be there and writable, as it is
    for a file next to the one being transcribed. *)
Definition open_w (s : string) : M Fs.location :=
  fun w =>
    (Return (Fs.resolve s),
     {| files := <[Fs.resolve s := ""]> (files w); trace := trace w |}).

(** [f.write(v)]: only a string can be written to a text file; it goes
    after what the handle has written so far. *)
Definition file_write (f : Fs.location) (v : pyval) : M unit :=
  match v with
  | PyStr s =>
      fun w =>
        (Return tt,
         {| files := <[f := default "" (files w !! f) +:+ s]> (files w);
            trace := trace w |})
  | _ => raise TypeError
  end.

(** [subprocess.run(cmd_list, stdout=f, check=check)]: the child writes its
    standard output into the open file; with [check], a non-zero status
    raises [CalledProcessError]. The standard output is not captured in
    the returned object. *)
Definition subprocess_run (E : env) (cmd_list : list string)
    (stdout : Fs.location) (check : bool) : M pyval :=
  emit (Spawned cmd_list) ;;
  match whisper_cli E cmd_list with
  | NotStarted => raise FileNotFoundError
  | Exited returncode out =>
      file_write stdout (PyStr out) ;;
      if check && negb (returncode =? 0)%Z
      then raise (CalledProcessError returncode)
      else pure (PyCompletedProcess cmd_list returncode)
  end.

(** ** The program *)

(** [transcribe_file_cli(file, modelType, language)], whose signature has
    the defaults [modelType="base.en"] and [language="en"]. *)
Definition transcribe_file_cli (E : env) (file modelType language : string)
    : M pyval :=
  let root_dir := Pathlib.parent (Pathlib.parse file) in
  let file_name_stem := Pathlib.stem (Pathlib.parse file) in
  let file_type := Pathlib.suffix (Pathlib.parse file) in
  let output_file :=
    Pathlib.to_str root_dir +:+ "/" +:+ file_name_stem +:+ file_type
    +:+ ".transcribed.txt" in
  let cmd_list :=
    ["whisper"; file; "--model"; modelType; "--language"; language] in
  f <- open_w output_file ;;
  ret <- subprocess_run E cmd_list f true ;;
  pure ret.

(** The [pattern] argument of [get_files_recursive]: a compiled pattern,
    or a plain string, which is what the command line passes. *)
Inductive pattern_arg : Type :=
| Compiled (r : Re.re)
| Uncompiled (s : string).

(** [pattern.match(s)]: a plain string has no [match] attribute. *)
Definition pattern_match (pattern : pattern_arg) (s : string) : outcome bool :=
  match pattern with
  | Compiled r => Return (Re.match_ r s)
  | Uncompiled _ => Raise AttributeError
  end.

(** [[p for p in ps if pattern.match(p)]] *)
Fixpoint select (pattern : pattern_arg) (ps : list string)
    : outcome (list string) :=
  match ps with
  | [] => Return []
  | p :: rest =>
      match pattern_match pattern p with
      | Raise e => Raise e
      | Return b =>
          match select pattern rest with
          | Raise e => Raise e
          | Return l => Return (if b then p :: l else l)
          end
      end
  end.

(** [get_files_recursive(directory, pattern, ignore, action)] *)
Definition get_files_recursive (E : env) (directory : string)
    (pattern : option pattern_arg) (ignore : option string)
    (action : option (string -> string)) : outcome (list string) :=
  let pattern :=
    match pattern with
    | None => Compiled Re.default_pattern
    | Some p => p
    end in
  match
    select pattern
      (map Pathlib.to_str
         (Fs.rglob (Pathlib.parse directory) (listing E directory)))
  with
  | Raise e => Raise e
  | Return files =>
      let files :=
        match ignore with
        | Some ig => filter (fun f => negb (Str.contains ig f) = true) files
        | None => files
        end in
      let files :=
        match action with
        | Some act => map act files
        | None => files
        end in
      Return files
  end.

(** [transcribe_file(file, modelType, force, climode)]. The signature has
    the defaults [modelType="large"], [force=True], [climode=True]; they
    are written out at every call below. The inner call leaves the
    language of [transcribe_file_cli] to its default, ["en"]. *)
Definition transcribe_file (E : env) (file modelType : string)
    (force climode : bool) : M pyval :=
  emit (Attempting file) ;;
  let transcribed_file := file +:+ ".transcribed.txt" in
  there <- path_exists transcribed_file ;;
  if there && negb force then
    emit (Skipping file) ;;
    pure (PyStr transcribed_file)
  else
    (* [if force: print("Forcing transcription of ...")] only prints. *)
    if climode then
      tfile_cli <- transcribe_file_cli E file modelType "en" ;;
      pure tfile_cli
    else
      try_except_RuntimeError
        (emit (ModelLoaded modelType) ;;
         model <- lift (load_model E modelType) ;;
         emit (ModelRun file) ;;
         result <- lift (model_transcribe E model file) ;;
         f <- open_w transcribed_file ;;
         text <- lift (subscript result "text") ;;
         file_write f text ;;
         jf <- open_w (transcribed_file +:+ ".json") ;;
         file_write jf result ;;
         pure (PyStr transcribed_file))
        (fun _ => pure (PyStr file)).

(** [for x in xs: body(x)] *)
Fixpoint for_each {A : Type} (xs : list A) (body : A -> M unit) : M unit :=
  match xs with
  | [] => pure tt
  | x :: rest => body x ;; for_each rest body
  end.

(** The [transcribe] command, with the options as the command line hands
    them over: [pattern] is a string when given, [ignore] is a string. *)
Definition transcribe (E : env) (directory : string) (pattern : option string)
    (ignore model : string) (force climode : bool) : M unit :=
  files <- lift (get_files_recursive E directory
                   (option_map Uncompiled pattern) (Some ignore) None) ;;
  for_each files (fun f =>
    transcribe_file E f model force climode ;; pure tt).

(** The [discover] command: it prints what discovery returns. *)
Definition discover (E : env) (directory : string) (pattern : option string)
    (ignore : string) : M unit :=
  files <- lift (get_files_recursive E directory
                   (option_map Uncompiled pattern) (Some ignore) None) ;;
  for_each files (fun f => emit (Printed f)).

(** ** The vocabulary of the specification *)

(** [s] ends with [suf]. *)
Fixpoint ends_with (s suf : string) : bool :=
  String.eqb s suf
  || match s with
     | EmptyString => false
     | String _ s' => ends_with s' suf
     end.

(** A name "matches one of the extensions": it ends with a dot followed by
    one of the listed extensions, letter case included. *)
Definition has_media_extension (nm : string) : bool :=
  existsb (fun ext => ends_with nm ("." +:+ ext)) Re.extensions.

(** The specification's reading of discovery with the default pattern: the
    paths of the regular files below the directory whose name matches one
    of the extensions, without those that contain the ignore substring. *)
Definition spec_discovered (E : env) (directory : string)
    (ignore : option string) (p : string) : Prop :=
  (exists q e,
     In (q, e)
       (Fs.rglob_entries (Pathlib.parse directory) (listing E directory))
     /\ Fs.is_file e = true
     /\ has_media_extension (Fs.entry_name e) = true
     /\ p = Pathlib.to_str q)
  /\ (forall ig, ignore = Some ig -> ~ exists a b, p = a +:+ ig +:+ b).

(** What the default pattern accepts: a run without a newline, a dot, one
    of the extensions, and at most one final newline. *)
Definition accepted_by_default (p : string) : Prop :=
  exists stem ext,
    Re.no_newline stem = true /\ In ext Re.extensions
    /\ (p = stem +:+ "." +:+ ext \/ p = stem +:+ "." +:+ ext +:+ Re.nl).

(** The lines ["Attempting f"] of a trace, in order: the calls of
    [transcribe_file]. *)
Fixpoint attempts (t : list event) : list string :=
  match t with
  | [] => []
  | Attempting f :: rest => f :: attempts rest
  | _ :: rest => attempts rest
  end.

(** A path string that can name a regular file: what follows its last
    slash is neither empty nor a single dot. *)
Definition names_file (file : string) : bool :=
  Pathlib.is_part (List.last (Str.split_slash file) "").

(** The components that parsing keeps are proper names: not empty, not a
    single dot, without a slash. *)
Definition proper (seg : string) : Prop :=
  Pathlib.is_part seg = true /\ Str.no_slash seg = true.

(** The roots a parsed path can have. *)
Definition is_root (r : string) : Prop := r = "" \/ r = "/" \/ r = "//".

(** The names the two functions compute: [transcribed_file] of
    [transcribe_file], and [output_file] and [cmd_list] of
    [transcribe_file_cli]. *)
Definition transcribed_file (file : string) : string :=
  file +:+ ".transcribed.txt".

Definition output_file (file : string) : string :=
  Pathlib.to_str (Pathlib.parent (Pathlib.parse file)) +:+ "/"
  +:+ Pathlib.stem (Pathlib.parse file)
  +:+ Pathlib.suffix (Pathlib.parse file) +:+ ".transcribed.txt".

Definition cmd_list (file modelType language : string) : list string :=
  ["whisper"; file; "--model"; modelType; "--language"; language].

(** The world with more events on its trace, and with one more file. *)
Definition logged (w : world) (t : list event) : world :=
  {| files := files w; trace := trace w ++ t |}.

Definition written (w : world) (loc : Fs.location) (content : string)
    : world :=
  {| files := <[loc := content]> (files w); trace := trace w |}.

(** ** Sample directories and collaborators *)

(** A directory with a media file, a sub-directory whose name looks like a
    media file, and a file whose name ends with a newline. *)
Definition clips_tree : list Fs.entry :=
  [Fs.File "a.wav";
   Fs.Folder "clips.mp4" [Fs.File "notes.txt"];
   Fs.File ("take.wav" +:+ Re.nl)].

(** Collaborators that are never reached by discovery: no executable, no
    engine. *)
Definition clips_env : env :=
  {| listing := fun _ => clips_tree;
     whisper_cli := fun _ => NotStarted;
     model_type := unit;
     load_model := fun _ => Raise (OtherError "ImportError");
     model_transcribe := fun _ _ => Raise (OtherError "ImportError") |}.

(** An executable and an engine that work: the executable prints a
    transcript and exits with status 0; the engine returns the dictionary
    that [whisper] returns. *)
Definition hello_env : env :=
  {| listing := fun _ => [Fs.File "a.wav"; Fs.File "b.wav"];
     whisper_cli := fun _ => Exited 0 "hello";
     model_type := unit;
     load_model := fun _ => Return tt;
     model_transcribe := fun _ _ =>
       Return (PyDict [("text", PyStr "hello"); ("segments", PyList []);
                       ("language", PyStr "en")]) |}.

(** An executable that exits with status 1 and an engine that raises
    [RuntimeError]. *)
Definition failing_env : env :=
  {| listing := fun _ => [Fs.File "a.wav"; Fs.File "b.wav"];
     whisper_cli := fun _ => Exited 1 "";
     model_type := unit;
     load_model := fun _ => Return tt;
     model_transcribe := fun _ _ =>
       Raise (RuntimeError "Failed to load audio") |}.

Definition empty_world : world := {| files := ∅; trace := [] |}.

(** A world in which [a.wav] has been transcribed before. *)
Definition done_world : world :=
  {| files := {[ Fs.resolve "a.wav.transcribed.txt" := "old transcript" ]};
     trace := [] |}.

(** ** Directories as a file system holds them *)

(** A name that an entry of a directory can have: not empty, neither one
    dot nor two, without a slash. *)
Definition valid_name (n : string) : bool :=
  Pathlib.is_part n && negb (String.eqb n "..") && Str.no_slash n.

(** In a directory no two entries have the same name, and so on below. *)
Fixpoint wf_entry (e : Fs.entry) : bool :=
  match e with
  | Fs.File n => valid_name n
  | Fs.Folder n children =>
      valid_name n
      && bool_decide (NoDup (map Fs.entry_name children))
      && forallb wf_entry children
  end.

Definition wf_tree (es : list Fs.entry) : bool :=
  bool_decide (NoDup (map Fs.entry_name es)) && forallb wf_entry es.

(** Where a yielded path lies: below [dir], through the entry named [n]. *)
Definition through (dir : Pathlib.path) (n : string) (q : Pathlib.path)
    (rest : list string) : Prop :=
  Pathlib.root q = Pathlib.root dir
  /\ Pathlib.parts q = Pathlib.parts dir ++ n :: rest
  /\ Forall proper (n :: rest).

(** An engine that returns a dictionary without a text. *)
Definition textless_env : env :=
  {| listing := fun _ => [Fs.File "a.wav"; Fs.File "b.wav"];
     whisper_cli := fun _ => NotStarted;
     model_type := unit;
     load_model := fun _ => Return tt;
     model_transcribe := fun _ _ =>
       Return (PyDict [("language", PyStr "en")]) |}.


(** * Part II: the properties *)

(** ** Strings *)

Lemma str_app_cons (c : ascii) (s t : string) :
  String c s +:+ t = String c (s +:+ t).
Proof. reflexivity. Qed.

Lemma str_app_nil_l (s : string) : "" +:+ s = s.
Proof. reflexivity. Qed.

Lemma str_app_nil_r (s : string) : s +:+ "" = s.
Proof.
  induction s as [|c s IH]; [reflexivity|]. by rewrite str_app_cons, IH.
Qed.

Lemma str_app_assoc (s t u : string) : (s +:+ t) +:+ u = s +:+ (t +:+ u).
Proof.
  induction s as [|c s IH]; [reflexivity|]. by rewrite !str_app_cons, IH.
Qed.

Lemma str_length_app (s t : string) :
  String.length (s +:+ t) = String.length s + String.length t.
Proof.
  induction s as [|c s IH]; [reflexivity|].
  rewrite str_app_cons. simpl. by rewrite IH.
Qed.

Lemma prefix_app (n h : string) :
  String.prefix n h = true <-> exists b, h = n +:+ b.
Proof.
  revert h. induction n as [|c n IH]; intros h.
  - destruct h; simpl; split; eauto.
  - destruct h as [|d h]; simpl.
    + split; [discriminate|]. intros [b Hb]. discriminate.
    + destruct (ascii_dec c d) as [->|Hne].
      * rewrite IH. split; intros [b Hb]; exists b.
        -- by rewrite str_app_cons, Hb.
        -- rewrite str_app_cons in Hb. congruence.
      * split; [discriminate|]. intros [b Hb].
        rewrite str_app_cons in Hb. congruence.
Qed.

Lemma contains_spec (n h : string) :
  Str.contains n h = true <-> exists a b, h = a +:+ n +:+ b.
Proof.
  induction h as [|d h IH].
  - cbn [Str.contains]. rewrite orb_false_r, prefix_app. split.
    + intros [b Hb]. by exists "", b.
    + intros [a [b Hab]]. destruct a; [by exists b|discriminate].
  - cbn [Str.contains]. rewrite orb_true_iff, prefix_app, IH. split.
    + intros [[b Hb]|[a [b Hab]]].
      * by exists "", b.
      * exists (String d a), b. by rewrite str_app_cons, Hab.
    + intros [a [b Hab]]. destruct a as [|c a].
      * left. by exists b.
      * right. exists a, b. rewrite str_app_cons in Hab. congruence.
Qed.

Lemma contains_false (n h : string) :
  Str.contains n h = false <-> ~ exists a b, h = a +:+ n +:+ b.
Proof.
  rewrite <- contains_spec. by destruct (Str.contains n h).
Qed.

Lemma ends_with_spec (s suf : string) :
  ends_with s suf = true <-> exists stem, s = stem +:+ suf.
Proof.
  induction s as [|c s IH]; cbn [ends_with].
  - rewrite orb_false_r, String.eqb_eq. split.
    + intros <-. by exists "".
    + intros [stem H]. destruct stem; [done | discriminate].
  - rewrite orb_true_iff, String.eqb_eq, IH. split.
    + intros [<-|[stem ->]]; [by exists "" | by exists (String c stem)].
    + intros [stem H]. destruct stem as [|d stem].
      * by left.
      * right. exists stem. rewrite str_app_cons in H. congruence.
Qed.

(** ** The pattern language *)

Lemma strip_prefix_spec (lit s s' : string) :
  Re.strip_prefix lit s = Some s' <-> s = lit +:+ s'.
Proof.
  revert s. induction lit as [|c lit IH]; intros s; simpl.
  - rewrite str_app_nil_l. split; congruence.
  - rewrite str_app_cons. destruct s as [|d s]; [split; discriminate|].
    destruct (Ascii.eqb_spec c d) as [->|Hne].
    + rewrite IH. split; congruence.
    + split; [discriminate | congruence].
Qed.

Lemma at_eol_spec (s : string) : Re.at_eol s = true <-> s = "" \/ s = Re.nl.
Proof. unfold Re.at_eol. by rewrite orb_true_iff, !String.eqb_eq. Qed.

Lemma matches_dot (s s' : string) :
  Re.matches Re.Dot s s' <-> exists c, c <> Re.newline /\ s = String c s'.
Proof.
  split.
  - intros H. inversion H; subst. eauto.
  - intros (c & Hc & ->). by constructor.
Qed.

Lemma matches_lit (lit s s' : string) :
  Re.matches (Re.Lit lit) s s' <-> s = lit +:+ s'.
Proof.
  split.
  - intros H. by inversion H.
  - intros ->. constructor.
Qed.

Lemma matches_cat (r1 r2 : Re.re) (s s2 : string) :
  Re.matches (Re.Cat r1 r2) s s2
  <-> exists s1, Re.matches r1 s s1 /\ Re.matches r2 s1 s2.
Proof.
  split.
  - intros H. inversion H; subst. eauto.
  - intros (s1 & H1 & H2). by apply (Re.m_cat _ _ _ s1).
Qed.

Lemma matches_alt (r1 r2 : Re.re) (s s' : string) :
  Re.matches (Re.Alt r1 r2) s s' <-> Re.matches r1 s s' \/ Re.matches r2 s s'.
Proof.
  split.
  - intros H. inversion H; subst; auto.
  - intros [H|H]; [by apply Re.m_alt_l | by apply Re.m_alt_r].
Qed.

Lemma matches_eol (s s' : string) :
  Re.matches Re.Eol s s' <-> s' = s /\ (s = "" \/ s = Re.nl).
Proof.
  split.
  - intros H. by inversion H; subst.
  - intros [-> H]. by constructor.
Qed.

(** The matcher computes the relation: [run] succeeds exactly when the
    pattern can leave a rest that the continuation accepts. *)
Lemma run_spec (r : Re.re) :
  forall s k,
    Re.run r s k = true <-> exists s', Re.matches r s s' /\ k s' = true.
Proof.
  induction r as [|lit|r1 IH1 r2 IH2|r1 IH1 r2 IH2|r1 IH1|]; intros s k.
  - (* Dot *)
    destruct s as [|c s]; simpl.
    + split; [discriminate|]. intros (s' & Hm & _). inversion Hm.
    + rewrite andb_true_iff, negb_true_iff. split.
      * intros [Hc Hk]. exists s. split; [|done].
        constructor. by apply Ascii.eqb_neq.
      * intros (s' & Hm & Hk). inversion Hm; subst.
        split; [by apply Ascii.eqb_neq | done].
  - (* Lit *)
    simpl. destruct (Re.strip_prefix lit s) as [s1|] eqn:Hs.
    + apply strip_prefix_spec in Hs. subst s. split.
      * intros Hk. exists s1. split; [constructor | done].
      * intros (s' & Hm & Hk). apply matches_lit in Hm.
        apply (inj (String.append lit)) in Hm. by subst.
    + split; [discriminate|]. intros (s' & Hm & _).
      apply matches_lit, strip_prefix_spec in Hm. congruence.
  - (* Cat *)
    simpl. rewrite IH1. split.
    + intros (s1 & Hm1 & Hk). apply IH2 in Hk as (s2 & Hm2 & Hk).
      exists s2. split; [|done]. apply matches_cat. eauto.
    + intros (s2 & Hm & Hk). apply matches_cat in Hm as (s1 & Hm1 & Hm2).
      exists s1. split; [done|]. apply IH2. eauto.
  - (* Alt *)
    simpl. rewrite orb_true_iff, IH1, IH2. split.
    + intros [(s' & Hm & Hk)|(s' & Hm & Hk)]; exists s';
        (split; [apply matches_alt; auto | done]).
    + intros (s' & Hm & Hk). apply matches_alt in Hm as [Hm|Hm]; eauto.
  - (* Star *)
    cbn [Re.run].
    assert (forall fuel t, String.length t <= fuel ->
      (fix star (fuel : nat) (s : string) {struct fuel} : bool :=
         match fuel with
         | O => k s
         | S fuel' =>
             Re.run r1 s (fun s1 =>
               (String.length s1 <? String.length s)%nat && star fuel' s1)
             || k s
         end) fuel t = true
      <-> exists s', Re.matches (Re.Star r1) t s' /\ k s' = true) as Hstar.
    { induction fuel as [|fuel IHf]; intros t Hlen.
      - split.
        + intros Hk. exists t. split; [constructor | done].
        + intros (s' & Hm & Hk). inversion Hm; subst; [done | lia].
      - rewrite orb_true_iff, IH1. split.
        + intros [(s1 & Hm1 & Hk)|Hk].
          * apply andb_true_iff in Hk as [Hlt Hk].
            apply Nat.ltb_lt in Hlt.
            apply IHf in Hk as (s' & Hm' & Hk); [|lia].
            exists s'. split; [|done]. by apply (Re.m_star_cons _ _ s1).
          * exists t. split; [constructor | done].
        + intros (s' & Hm & Hk).
          inversion Hm as [| | | | |r t'|r t' s1 s2 Hm1 Hlt Hm2|]; subst.
          * by right.
          * left. exists s1. split; [done|].
            rewrite andb_true_iff, Nat.ltb_lt. split; [done|].
            apply IHf; [lia|]. eauto. }
    by apply Hstar.
  - (* Eol *)
    simpl. rewrite andb_true_iff, at_eol_spec. split.
    + intros [He Hk]. exists s. split; [by constructor | done].
    + intros (s' & Hm & Hk). by inversion Hm; subst.
Qed.

Lemma matches_star_dot (s s' : string) :
  Re.matches (Re.Star Re.Dot) s s'
  <-> exists stem, Re.no_newline stem = true /\ s = stem +:+ s'.
Proof.
  split.
  - intros H. remember (Re.Star Re.Dot) as r eqn:Hr.
    induction H as [| | | | |r s|r s s1 s2 H1 _ Hlt H2 IH2|]; try discriminate.
    + by exists "".
    + injection Hr as ->. apply matches_dot in H1 as (c & Hc & ->).
      destruct (IH2 eq_refl) as (stem & Hstem & ->).
      exists (String c stem). split; [|done].
      simpl. rewrite Hstem, andb_true_r. by apply negb_true_iff, Ascii.eqb_neq.
  - intros (stem & Hstem & ->). induction stem as [|c stem IH].
    + constructor.
    + simpl in Hstem. apply andb_true_iff in Hstem as [Hc Hstem].
      apply negb_true_iff, Ascii.eqb_neq in Hc.
      apply (Re.m_star_cons _ _ (stem +:+ s')); [by constructor | | auto].
      rewrite str_app_cons. simpl. lia.
Qed.

Lemma matches_extension (s s' : string) :
  Re.matches
    (Re.Alt (Re.Lit "wav") (Re.Alt (Re.Lit "mp3") (Re.Alt (Re.Lit "mp4")
      (Re.Alt (Re.Lit "avi") (Re.Alt (Re.Lit "mov") (Re.Alt (Re.Lit "flv")
      (Re.Alt (Re.Lit "mkv") (Re.Lit "wmv")))))))) s s'
  <-> exists ext, In ext Re.extensions /\ s = ext +:+ s'.
Proof.
  rewrite !matches_alt, !matches_lit. unfold Re.extensions. simpl. split.
  - intros H.
    repeat (destruct H as [H|H]; [eexists; split; [|exact H]; tauto|]).
    eexists; split; [|exact H]; tauto.
  - intros (ext & Hin & ->).
    repeat (destruct Hin as [<-|Hin]; [tauto|]). done.
Qed.

(** The default pattern accepts exactly the strings made of a run without
    a newline, a dot, a listed extension and at most one final newline. *)
Lemma default_pattern_spec (p : string) :
  Re.match_ Re.default_pattern p = true <-> accepted_by_default p.
Proof.
  unfold Re.match_, Re.default_pattern, accepted_by_default.
  rewrite run_spec. split.
  - intros (s' & Hm & _).
    apply matches_cat in Hm as (s1 & Hstar & Hm).
    apply matches_cat in Hm as (s2 & Hdot & Hm).
    apply matches_cat in Hm as (s3 & Hext & Heol).
    apply matches_star_dot in Hstar as (stem & Hstem & ->).
    apply matches_lit in Hdot as ->.
    apply matches_extension in Hext as (ext & Hin & ->).
    apply matches_eol in Heol as [-> [->| ->]]; exists stem, ext.
    + rewrite str_app_nil_r. auto.
    + auto.
  - intros (stem & ext & Hstem & Hin & Hp).
    assert (exists rest, (rest = "" \/ rest = Re.nl)
                         /\ p = stem +:+ "." +:+ ext +:+ rest)
      as (rest & Hrest & ->).
    { destruct Hp as [->| ->]; [exists "" | exists Re.nl];
        rewrite ?str_app_nil_r; auto. }
    exists rest. split; [|done].
    apply matches_cat. exists ("." +:+ ext +:+ rest). split.
    { apply matches_star_dot. eauto. }
    apply matches_cat. exists (ext +:+ rest). split.
    { by apply matches_lit. }
    apply matches_cat. exists rest. split.
    { apply matches_extension. eauto. }
    by apply matches_eol.
Qed.

(** The letter case of the extension counts, the name before the dot may
    be empty, and a final newline is let through. *)
Example default_pattern_samples :
  Re.match_ Re.default_pattern "talks/intro.mp4" = true
  /\ Re.match_ Re.default_pattern "talks/intro.MP4" = false
  /\ Re.match_ Re.default_pattern "talks/intro.mp4.txt" = false
  /\ Re.match_ Re.default_pattern ".wav" = true
  /\ Re.match_ Re.default_pattern ("intro.mp4" +:+ Re.nl) = true
  /\ Re.match_ Re.default_pattern ("old" +:+ Re.nl +:+ "intro.mp4") = false.
Proof. repeat split; reflexivity. Qed.

(** ** Discovery *)

Lemma select_compiled (r : Re.re) (ps : list string) :
  select (Compiled r) ps
  = Return (filter (fun p => Re.match_ r p = true) ps).
Proof.
  induction ps as [|p ps IH]; [reflexivity|].
  cbn [select pattern_match]. rewrite IH.
  rewrite filter_cons. by destruct (Re.match_ r p).
Qed.

(** With a compiled pattern and no transform, discovery is the listing
    filtered twice. *)
Lemma get_files_recursive_compiled (E : env) (directory : string) (r : Re.re)
    (ignore : option string) :
  get_files_recursive E directory (Some (Compiled r)) ignore None
  = Return
      (let matching :=
         filter (fun p => Re.match_ r p = true)
           (map Pathlib.to_str
              (Fs.rglob (Pathlib.parse directory) (listing E directory))) in
       match ignore with
       | Some ig => filter (fun f => negb (Str.contains ig f) = true) matching
       | None => matching
       end).
Proof. unfold get_files_recursive. by rewrite select_compiled. Qed.

Lemma get_files_recursive_default (E : env) (directory : string)
    (ignore : option string) (action : option (string -> string)) :
  get_files_recursive E directory None ignore action
  = get_files_recursive E directory (Some (Compiled Re.default_pattern))
      ignore action.
Proof. reflexivity. Qed.

(** Whatever the pattern, a list that discovery returns under an ignore
    substring holds no path that contains it. *)
Lemma get_files_recursive_ignore (E : env) (directory : string)
    (pattern : option pattern_arg) (ig : string) (found : list string) :
  get_files_recursive E directory pattern (Some ig) None = Return found ->
  Forall (fun p => ~ exists a b, p = a +:+ ig +:+ b) found.
Proof.
  unfold get_files_recursive. destruct (select _ _) as [l|e]; [|discriminate].
  intros [= <-]. apply Forall_forall. intros p Hp.
  apply list_elem_of_filter in Hp as [Hp _]. apply negb_true_iff in Hp.
  by apply contains_false.
Qed.

Lemma in_rglob (dir : Pathlib.path) (es : list Fs.entry) (p : string) :
  In p (map Pathlib.to_str (Fs.rglob dir es))
  <-> exists q e, In (q, e) (Fs.rglob_entries dir es) /\ p = Pathlib.to_str q.
Proof.
  unfold Fs.rglob. rewrite map_map, in_map_iff. split.
  - intros ([q e] & <- & Hin). eauto.
  - intros (q & e & Hin & ->). by exists (q, e).
Qed.

(** With the default pattern discovery always returns a list. *)
Lemma discovery_default_pattern_returns (E : env) (directory : string)
    (ignore : option string) :
  exists found, get_files_recursive E directory None ignore None = Return found.
Proof.
  rewrite get_files_recursive_default, get_files_recursive_compiled. eauto.
Qed.

(** Discovery with the default pattern returns a listed path exactly when
    the pattern matches it and it does not contain the ignore substring. *)
Lemma in_discovered (E : env) (directory : string) (ignore : option string)
    (found : list string) (p : string) :
  get_files_recursive E directory None ignore None = Return found ->
  In p found
  <-> In p (map Pathlib.to_str
              (Fs.rglob (Pathlib.parse directory) (listing E directory)))
      /\ Re.match_ Re.default_pattern p = true
      /\ (forall ig, ignore = Some ig -> Str.contains ig p = false).
Proof.
  rewrite get_files_recursive_default, get_files_recursive_compiled.
  intros [= <-]. destruct ignore as [ig|]; cbn zeta iota.
  - rewrite <- !list_elem_of_In, !list_elem_of_filter, negb_true_iff. split.
    + intros (Hig & Hm & Hin). repeat split; try done. by intros ? [= <-].
    + intros (Hin & Hm & Hig). auto.
  - rewrite <- !list_elem_of_In, !list_elem_of_filter. split.
    + intros (Hm & Hin). repeat split; done.
    + intros (Hin & Hm & _). auto.
Qed.

(** C1, as amended. For every directory, discovery with the default
    pattern returns exactly the paths of the entries below the directory,
    regular files and directories alike, whose path string is a run
    without a newline, a dot, one of the extensions wav, mp3, mp4, avi,
    mov, flv, mkv, wmv (letter case included) and at most one final
    newline; when an ignore substring is given, the paths that contain it
    are left out. *)
Theorem discovery_default_pattern (E : env) (directory : string)
    (ignore : option string) :
  exists found,
    get_files_recursive E directory None ignore None = Return found
    /\ forall p,
         In p found
         <-> (exists q e,
                In (q, e) (Fs.rglob_entries (Pathlib.parse directory)
                             (listing E directory))
                /\ p = Pathlib.to_str q)
             /\ accepted_by_default p
             /\ (forall ig, ignore = Some ig ->
                   ~ exists a b, p = a +:+ ig +:+ b).
Proof.
  destruct (discovery_default_pattern_returns E directory ignore)
    as [found Hfound].
  exists found. split; [done|]. intros p.
  rewrite (in_discovered E directory ignore found p Hfound).
  rewrite in_rglob, default_pattern_spec.
  assert ((forall ig, ignore = Some ig -> Str.contains ig p = false)
          <-> (forall ig, ignore = Some ig ->
                 ~ exists a b, p = a +:+ ig +:+ b)) as ->; [|done].
  split; intros H ig Hig; apply contains_false; auto.
Qed.

(** C1, as stated, fails on [clips_tree]: discovery returns the directory
    [d/clips.mp4], which is no regular file, and [d/take.wav] followed by
    a newline, whose name does not end with a listed extension. *)
Lemma discovery_returns_more_than_media_files :
  exists found,
    get_files_recursive clips_env "d" None None None = Return found
    /\ found = ["d/a.wav"; "d/clips.mp4"; "d/take.wav" +:+ Re.nl]
    /\ ~ spec_discovered clips_env "d" None "d/clips.mp4"
    /\ ~ spec_discovered clips_env "d" None ("d/take.wav" +:+ Re.nl)
    /\ ~ (forall p, In p found <-> spec_discovered clips_env "d" None p).
Proof.
  eexists. split; [reflexivity|]. split; [reflexivity|].
  assert (forall p, p = "d/clips.mp4" \/ p = "d/take.wav" +:+ Re.nl ->
            ~ spec_discovered clips_env "d" None p) as Hnot.
  { intros p Hp [(q & e & Hin & Hfile & Hext & Heq) _].
    vm_compute in Hin.
    repeat (destruct Hin as [Hin|Hin];
            [injection Hin as <- <-; vm_compute in Hfile, Hext, Heq;
             destruct Hp as [->| ->]; discriminate|]).
    contradiction. }
  split; [apply Hnot; auto|]. split; [apply Hnot; auto|].
  intros Hall. apply (Hnot "d/clips.mp4"); [auto|].
  apply Hall. vm_compute. auto.
Qed.

(** C8. For every directory, no path in the list that
    [get_files_recursive(dir, ignore="skip_me")] returns contains the
    substring [skip_me]. *)
Theorem exclusion_filter (E : env) (directory : string) :
  exists found,
    get_files_recursive E directory None (Some "skip_me") None = Return found
    /\ Forall (fun p => ~ exists a b, p = a +:+ "skip_me" +:+ b) found.
Proof.
  destruct (discovery_default_pattern_returns E directory (Some "skip_me"))
    as [found Hfound].
  exists found. split; [done|].
  by apply (get_files_recursive_ignore E directory None).
Qed.

(** ** Paths *)

Lemma split_slash_cons (c : ascii) (s : string) :
  Str.split_slash (String c s)
  = if Ascii.eqb c "/" then "" :: Str.split_slash s
    else String c (hd "" (Str.split_slash s)) :: tl (Str.split_slash s).
Proof.
  unfold Str.split_slash. cbn [Str.split1].
  destruct (Str.split1 s) as [seg segs]. by destruct (Ascii.eqb c "/").
Qed.

Lemma split_slash_not_nil (s : string) : Str.split_slash s <> [].
Proof. unfold Str.split_slash. by destruct (Str.split1 s). Qed.

Lemma split_slash_app_slash (a b : string) :
  Str.split_slash (a +:+ "/" +:+ b) = Str.split_slash a ++ Str.split_slash b.
Proof.
  induction a as [|c a IH].
  - rewrite str_app_nil_l, str_app_cons, str_app_nil_l, split_slash_cons.
    reflexivity.
  - rewrite str_app_cons, !split_slash_cons, IH.
    destruct (Ascii.eqb c "/"); [reflexivity|].
    pose proof (split_slash_not_nil a).
    by destruct (Str.split_slash a).
Qed.

Lemma split_slash_no_slash (b : string) :
  Str.no_slash b = true -> Str.split_slash b = [b].
Proof.
  induction b as [|c b IH]; [reflexivity|]. simpl.
  intros [Hc Hb]%andb_true_iff. rewrite split_slash_cons, (IH Hb).
  apply negb_true_iff in Hc. by rewrite Hc.
Qed.

Lemma split_slash_segments (s : string) :
  Forall (fun seg => Str.no_slash seg = true) (Str.split_slash s).
Proof.
  induction s as [|c s IH]; [by repeat constructor|].
  rewrite split_slash_cons. destruct (Ascii.eqb c "/") eqn:Hc.
  - by constructor.
  - pose proof (split_slash_not_nil s).
    destruct (Str.split_slash s) as [|seg segs]; [done|].
    inversion IH; subst. constructor; [|done]. simpl. by rewrite Hc.
Qed.

(** A string has no slash, or splits at its last slash. *)
Lemma last_slash_cases (f : string) :
  Str.no_slash f = true
  \/ exists a b, f = a +:+ "/" +:+ b /\ Str.no_slash b = true.
Proof.
  induction f as [|c f IH]; [by left|].
  destruct IH as [Hf|(a & b & -> & Hb)].
  - simpl. destruct (Ascii.eqb_spec c "/") as [->|Hne].
    + right. exists "", f. by rewrite str_app_nil_l.
    + left. by rewrite Hf.
  - right. exists (String c a), b. by rewrite str_app_cons.
Qed.

Lemma no_slash_app (s t : string) :
  Str.no_slash (s +:+ t) = Str.no_slash s && Str.no_slash t.
Proof.
  induction s as [|c s IH]; [reflexivity|].
  rewrite str_app_cons. simpl. by rewrite IH, andb_assoc.
Qed.

Lemma components_app_slash (a b : string) :
  Pathlib.components (a +:+ "/" +:+ b)
  = Pathlib.components a ++ Pathlib.components b.
Proof.
  unfold Pathlib.components. by rewrite split_slash_app_slash, filter_app.
Qed.

Lemma components_no_slash (b : string) :
  Str.no_slash b = true ->
  Pathlib.components b = if Pathlib.is_part b then [b] else [].
Proof.
  intros Hb. unfold Pathlib.components. rewrite (split_slash_no_slash b Hb).
  rewrite filter_cons, filter_nil. by destruct (Pathlib.is_part b).
Qed.

Lemma components_lstrip (s : string) :
  Pathlib.components (Str.lstrip_slash s) = Pathlib.components s.
Proof.
  induction s as [|c s IH]; [reflexivity|]. simpl.
  destruct (Ascii.eqb_spec c "/") as [->|Hne]; [|reflexivity].
  rewrite IH. unfold Pathlib.components.
  rewrite (split_slash_cons "/" s). simpl. by rewrite filter_cons.
Qed.

Lemma components_proper (s : string) : Forall proper (Pathlib.components s).
Proof.
  unfold Pathlib.components. apply Forall_forall. intros seg Hin.
  apply list_elem_of_filter in Hin as [Hpart Hin]. split; [done|].
  pose proof (split_slash_segments s) as Hall.
  rewrite Forall_forall in Hall. by apply Hall.
Qed.

Lemma prefix_slash_cons (c : ascii) (s : string) :
  String.prefix "/" (String c s) = Ascii.eqb c "/".
Proof.
  cbn [String.prefix]. destruct (ascii_dec "/" c) as [<-|Hne].
  - by destruct s.
  - symmetry. apply Ascii.eqb_neq. congruence.
Qed.

Lemma prefix_slash_app (s t : string) :
  s <> "" -> String.prefix "/" (s +:+ t) = String.prefix "/" s.
Proof.
  destruct s as [|c s]; [done|]. intros _.
  by rewrite str_app_cons, !prefix_slash_cons.
Qed.

Lemma proper_not_rooted (seg : string) :
  proper seg -> seg <> "" /\ String.prefix "/" seg = false.
Proof.
  intros [Hpart Hslash]. destruct seg as [|c seg]; [done|].
  split; [done|]. rewrite prefix_slash_cons. simpl in Hslash.
  apply andb_true_iff in Hslash as [Hc _]. by apply negb_true_iff.
Qed.

Lemma join_slash_cons (x : string) (rest : list string) :
  rest <> [] ->
  Str.join_slash (x :: rest) = x +:+ "/" +:+ Str.join_slash rest.
Proof. by destruct rest. Qed.

Lemma components_join (ps : list string) :
  Forall proper ps -> Pathlib.components (Str.join_slash ps) = ps.
Proof.
  induction ps as [|x rest IH]; [reflexivity|].
  intros Hall. inversion Hall as [|? ? [Hpart Hslash] Hrest]; subst.
  destruct rest as [|y rest].
  - simpl. by rewrite components_no_slash, Hpart.
  - rewrite join_slash_cons by done.
    rewrite components_app_slash, (IH Hrest), components_no_slash by done.
    by rewrite Hpart.
Qed.

Lemma prefix_slash_join (ps : list string) :
  Forall proper ps -> String.prefix "/" (Str.join_slash ps) = false.
Proof.
  destruct ps as [|x rest]; [reflexivity|].
  intros Hall. inversion Hall as [|? ? Hx Hrest]; subst.
  apply proper_not_rooted in Hx as [Hne Hpre].
  destruct rest as [|y rest]; [done|].
  rewrite join_slash_cons by done. by rewrite prefix_slash_app.
Qed.

(** Where the string of a path leads: to its components, from the root
    when it has one. *)
Lemma resolve_to_str (r : string) (ps : list string) :
  is_root r -> Forall proper ps ->
  Fs.resolve (Pathlib.to_str {| Pathlib.root := r; Pathlib.parts := ps |})
  = (negb (String.eqb r ""), ps).
Proof.
  intros Hr Hps. unfold Fs.resolve, Pathlib.to_str.
  cbn [Pathlib.root Pathlib.parts].
  destruct Hr as [->|[->| ->]].
  - destruct ps as [|x rest]; [reflexivity|].
    rewrite str_app_nil_l, components_join, prefix_slash_join by done.
    reflexivity.
  - change ("/" +:+ Str.join_slash ps) with ("" +:+ "/" +:+ Str.join_slash ps).
    rewrite components_app_slash, components_join by done.
    by rewrite str_app_nil_l, str_app_cons, prefix_slash_cons.
  - change ("//" +:+ Str.join_slash ps)
      with ("" +:+ "/" +:+ ("" +:+ "/" +:+ Str.join_slash ps)).
    rewrite !components_app_slash, components_join by done.
    by rewrite str_app_nil_l, str_app_cons, prefix_slash_cons.
Qed.

Lemma lstrip_slash_length (s : string) :
  String.length (Str.lstrip_slash s) <= String.length s.
Proof.
  induction s as [|c s IH]; [done|]. simpl.
  destruct (Ascii.eqb c "/"); simpl; lia.
Qed.

Lemma parse_root (s : string) :
  is_root (Pathlib.root (Pathlib.parse s))
  /\ negb (String.eqb (Pathlib.root (Pathlib.parse s)) "")
     = String.prefix "/" s.
Proof.
  unfold Pathlib.parse. cbn [Pathlib.root].
  destruct s as [|c s]; [by split; [left|]|].
  rewrite prefix_slash_cons. cbn [Str.lstrip_slash].
  destruct (Ascii.eqb c "/") eqn:Hc.
  - pose proof (lstrip_slash_length s) as Hlen.
    cbn [String.length].
    destruct (_ =? 0)%nat eqn:H0; [apply Nat.eqb_eq in H0; lia|].
    destruct (_ =? 2)%nat; (split; [unfold is_root; auto | reflexivity]).
  - rewrite Nat.sub_diag. split; [by left | reflexivity].
Qed.

Lemma parse_parts (s : string) :
  Pathlib.parts (Pathlib.parse s) = Pathlib.components s.
Proof. unfold Pathlib.parse. cbn [Pathlib.parts]. apply components_lstrip. Qed.

(** Going through [pathlib] does not change where a string leads. *)
Lemma resolve_parse (s : string) :
  Fs.resolve (Pathlib.to_str (Pathlib.parse s)) = Fs.resolve s.
Proof.
  destruct (parse_root s) as [Hroot Hpre].
  pose proof (parse_parts s) as Hparts.
  destruct (Pathlib.parse s) as [r ps]. cbn [Pathlib.root Pathlib.parts] in *.
  rewrite resolve_to_str; [|done|subst ps; apply components_proper].
  unfold Fs.resolve. by rewrite Hpre, Hparts.
Qed.

Lemma substring_all (s : string) : String.substring 0 (String.length s) s = s.
Proof. induction s as [|c s IH]; [reflexivity|]. simpl. by rewrite IH. Qed.

Lemma substring_split (s : string) (i : nat) :
  i <= String.length s ->
  String.substring 0 i s +:+ String.substring i (String.length s - i) s = s.
Proof.
  revert i. induction s as [|c s IH]; intros i Hi.
  - simpl in Hi. by replace i with 0 by lia.
  - destruct i as [|i].
    + rewrite Nat.sub_0_r, substring_all. reflexivity.
    + cbn [String.substring String.length Nat.sub]. rewrite str_app_cons.
      rewrite IH; [done|]. simpl in Hi. lia.
Qed.

Lemma suffix_index_bound (nm : string) (i : nat) :
  Pathlib.suffix_index nm = Some i -> i <= String.length nm.
Proof.
  unfold Pathlib.suffix_index. destruct (Str.rfind "." nm) as [j|]; [|done].
  destruct (0 <? j)%nat; [|done]. cbn [andb].
  destruct (j <? String.length nm - 1)%nat eqn:Hj; [|done].
  intros [= <-]. apply Nat.ltb_lt in Hj. lia.
Qed.

(** The stem and the suffix of a path make up its name. *)
Lemma stem_suffix (p : Pathlib.path) :
  Pathlib.stem p +:+ Pathlib.suffix p = Pathlib.name p.
Proof.
  unfold Pathlib.stem, Pathlib.suffix.
  destruct (Pathlib.suffix_index (Pathlib.name p)) as [i|] eqn:Hi.
  - apply substring_split. by apply suffix_index_bound.
  - apply str_app_nil_r.
Qed.

Lemma is_part_app (b ext : string) :
  Pathlib.is_part b = true -> Pathlib.is_part (b +:+ ext) = true.
Proof.
  unfold Pathlib.is_part. rewrite !andb_true_iff, !negb_true_iff.
  rewrite !String.eqb_neq. intros [Hne Hdot].
  destruct b as [|c b]; [done|]. rewrite str_app_cons. split; [done|].
  intros [= -> Hb]. destruct b; [|discriminate]. done.
Qed.

(** A string that names a file: its components end with the name, and a
    slash-free extension of the string extends the name only. *)
Lemma names_file_components (file : string) :
  names_file file = true ->
  exists init b,
    proper b /\ file <> ""
    /\ Pathlib.components file = init ++ [b]
    /\ forall ext, Str.no_slash ext = true ->
         Pathlib.components (file +:+ ext) = init ++ [b +:+ ext].
Proof.
  unfold names_file. intros Hname.
  destruct (last_slash_cases file) as [Hf|(a & b & -> & Hb)].
  - rewrite (split_slash_no_slash file Hf) in Hname. cbn [List.last] in Hname.
    exists [], file. split; [done|]. split; [by destruct file|].
    split.
    + by rewrite components_no_slash, Hname.
    + intros ext Hext. rewrite components_no_slash.
      * by rewrite is_part_app.
      * by rewrite no_slash_app, Hf, Hext.
  - rewrite split_slash_app_slash, (split_slash_no_slash b Hb) in Hname.
    rewrite last_last in Hname.
    exists (Pathlib.components a), b. split; [done|].
    split; [by destruct a|]. split.
    + by rewrite components_app_slash, (components_no_slash b), Hname.
    + intros ext Hext. rewrite !str_app_assoc, components_app_slash.
      rewrite (components_no_slash (b +:+ ext)).
      * by rewrite is_part_app.
      * by rewrite no_slash_app, Hb, Hext.
Qed.

Lemma parent_snoc (p : Pathlib.path) (init : list string) (b : string) :
  Pathlib.parts p = init ++ [b] ->
  Pathlib.parent p = {| Pathlib.root := Pathlib.root p; Pathlib.parts := init |}
  /\ Pathlib.name p = b.
Proof.
  intros Hp. unfold Pathlib.parent, Pathlib.name. rewrite Hp. split.
  - destruct (init ++ [b]) as [|x l] eqn:Heq.
    + by destruct init.
    + by rewrite <- Heq, removelast_last.
  - apply last_last.
Qed.

Lemma to_str_not_empty (r : string) (ps : list string) :
  is_root r -> Forall proper ps ->
  Pathlib.to_str {| Pathlib.root := r; Pathlib.parts := ps |} <> "".
Proof.
  intros Hr Hps. unfold Pathlib.to_str. cbn [Pathlib.root Pathlib.parts].
  destruct Hr as [->|[->| ->]]; [|done|done].
  destruct ps as [|x rest]; [done|].
  inversion Hps as [|? ? Hx _]; subst.
  apply proper_not_rooted in Hx as [Hne _].
  rewrite str_app_nil_l. destruct rest; [done|].
  rewrite join_slash_cons by done. by destruct x.
Qed.

(** The file that [transcribe_file_cli] writes lies where the input path
    with [.transcribed.txt] appended leads. *)
Lemma cli_output_location (file : string) :
  names_file file = true ->
  Fs.resolve (output_file file) = Fs.resolve (transcribed_file file).
Proof.
  intros Hname. unfold output_file, transcribed_file.
  destruct (names_file_components file Hname)
    as (init & b & Hb & Hne & Hcomp & Hext).
  destruct (parse_root file) as [Hroot Hpre].
  pose proof (parse_parts file) as Hparts. rewrite Hcomp in Hparts.
  destruct (parent_snoc _ _ _ Hparts) as [Hparent Hnm].
  assert (Forall proper init) as Hinit.
  { pose proof (components_proper file) as Hall. rewrite Hcomp in Hall.
    by apply Forall_app in Hall as [? _]. }
  rewrite Hparent, <- (str_app_assoc (Pathlib.stem _)), stem_suffix, Hnm.
  remember (Pathlib.root (Pathlib.parse file)) as r eqn:Hr.
  clear Hr Hparent Hparts Hnm.
  pose proof (resolve_to_str r init Hroot Hinit) as Hres.
  pose proof (to_str_not_empty r init Hroot Hinit) as Hstr.
  remember (Pathlib.to_str {| Pathlib.root := r; Pathlib.parts := init |})
    as dir eqn:Hdir.
  clear Hdir. unfold Fs.resolve in *. injection Hres as Hres1 Hres2.
  rewrite prefix_slash_app by done.
  rewrite components_app_slash, Hres1, Hres2, Hpre.
  rewrite (prefix_slash_app file) by done.
  rewrite (Hext ".transcribed.txt") by done.
  rewrite components_no_slash.
  - by rewrite is_part_app by apply Hb.
  - rewrite no_slash_app. by destruct Hb as [_ ->].
Qed.

(** *** Discovery in terms of names

    For an entry whose path has no newline, the default pattern accepts
    the path exactly when the name of the entry ends with a dot and a
    listed extension. *)

Lemma entry_induction (P : Fs.entry -> Prop) :
  (forall n, P (Fs.File n)) ->
  (forall n children, Forall P children -> P (Fs.Folder n children)) ->
  forall e, P e.
Proof.
  intros Hfile Hfolder.
  fix IH 1. intros [n|n children]; [apply Hfile|].
  apply Hfolder. induction children as [|c children IHc]; constructor.
  - apply IH.
  - apply IHc.
Qed.

(** Every path that the traversal yields is the path of a directory at or
    below the start, followed by the name of the entry. *)
Lemma rglob_entries_shape (es : list Fs.entry) (dir q : Pathlib.path)
    (e : Fs.entry) :
  In (q, e) (Fs.rglob_entries dir es) ->
  exists d,
    q = Pathlib.joinpath d (Fs.entry_name e)
    /\ Pathlib.root d = Pathlib.root dir.
Proof.
  assert (forall e0 : Fs.entry, forall dir0 q0 e1,
            In (q0, e1) (Fs.below dir0 e0) ->
            exists d, q0 = Pathlib.joinpath d (Fs.entry_name e1)
                      /\ Pathlib.root d = Pathlib.root dir0) as Hbelow.
  { intros e0. induction e0 as [n|n children IH] using entry_induction;
      intros dir0 q0 e1 Hin; [destruct Hin|].
    cbn [Fs.below] in Hin. unfold Fs.scan_dir in Hin.
    apply in_app_iff in Hin as [Hin|Hin].
    - apply in_map_iff in Hin as (c & [= <- <-] & _).
      by exists (Pathlib.joinpath dir0 n).
    - apply in_flat_map in Hin as (c & Hc & Hin).
      rewrite Forall_forall in IH.
      apply list_elem_of_In in Hc.
      destruct (IH c Hc _ _ _ Hin) as (d & -> & Hd). by exists d. }
  unfold Fs.rglob_entries, Fs.scan_dir. intros Hin.
  apply in_app_iff in Hin as [Hin|Hin].
  - apply in_map_iff in Hin as (c & [= <- <-] & _). by exists dir.
  - apply in_flat_map in Hin as (c & _ & Hin). by apply (Hbelow c).
Qed.

Lemma join_slash_snoc (ps : list string) (n : string) :
  ps <> [] ->
  Str.join_slash (ps ++ [n]) = Str.join_slash ps +:+ "/" +:+ n.
Proof.
  induction ps as [|x rest IH]; [done|]. intros _.
  destruct rest as [|y rest]; [reflexivity|].
  change ((x :: y :: rest) ++ [n]) with (x :: ((y :: rest) ++ [n])).
  rewrite join_slash_cons by by destruct rest.
  rewrite IH by done. rewrite (join_slash_cons x (y :: rest)) by done.
  by rewrite !str_app_assoc.
Qed.

Lemma to_str_parts (r : string) (ps : list string) :
  ps <> [] ->
  Pathlib.to_str {| Pathlib.root := r; Pathlib.parts := ps |}
  = r +:+ Str.join_slash ps.
Proof.
  intros Hps. unfold Pathlib.to_str. cbn [Pathlib.root Pathlib.parts].
  destruct r; [|done]. by destruct ps.
Qed.

(** The string of a child path: the name, after nothing or after
    something that ends with a slash. *)
Lemma to_str_joinpath (d : Pathlib.path) (n : string) :
  is_root (Pathlib.root d) ->
  Pathlib.to_str (Pathlib.joinpath d n) = n
  \/ exists pre, Pathlib.to_str (Pathlib.joinpath d n) = pre +:+ "/" +:+ n.
Proof.
  intros Hroot. destruct d as [r ps]. cbn [Pathlib.root] in Hroot.
  unfold Pathlib.joinpath. cbn [Pathlib.root Pathlib.parts].
  rewrite to_str_parts by by destruct ps.
  destruct ps as [|x rest].
  - cbn [List.app Str.join_slash].
    destruct Hroot as [->|[->| ->]]; [by left| |]; right.
    + by exists "".
    + by exists "/".
  - right. rewrite join_slash_snoc by done.
    exists (r +:+ Str.join_slash (x :: rest)). by rewrite str_app_assoc.
Qed.

(** A slash-free ending of a string is an ending of what follows its last
    slash. *)
Lemma ends_with_last_segment (p suf : string) :
  Str.no_slash suf = true ->
  ends_with p suf = ends_with (List.last (Str.split_slash p) "") suf.
Proof.
  intros Hsuf. apply eq_true_iff_eq. rewrite !ends_with_spec. split.
  - intros [stem ->].
    destruct (last_slash_cases stem) as [Hs|(a & b & -> & Hb)].
    + rewrite split_slash_no_slash by by rewrite no_slash_app, Hs, Hsuf.
      by exists stem.
    + rewrite !str_app_assoc, split_slash_app_slash.
      rewrite (split_slash_no_slash (b +:+ suf))
        by by rewrite no_slash_app, Hb, Hsuf.
      rewrite last_last. by exists b.
  - destruct (last_slash_cases p) as [Hp|(a & b & -> & Hb)].
    + by rewrite split_slash_no_slash.
    + rewrite split_slash_app_slash, (split_slash_no_slash b) by done.
      rewrite last_last. intros [stem ->].
      exists (a +:+ "/" +:+ stem). by rewrite !str_app_assoc.
Qed.

Lemma no_newline_app (s t : string) :
  Re.no_newline (s +:+ t) = Re.no_newline s && Re.no_newline t.
Proof.
  induction s as [|c s IH]; [reflexivity|].
  rewrite str_app_cons. simpl. by rewrite IH, andb_assoc.
Qed.

(** On a string without a newline, the default pattern asks for a listed
    extension at the end and nothing else. *)
Lemma accepted_no_newline (p : string) :
  Re.no_newline p = true ->
  accepted_by_default p <-> has_media_extension p = true.
Proof.
  intros Hp. unfold accepted_by_default, has_media_extension.
  rewrite existsb_exists. split.
  - intros (stem & ext & _ & Hin & [->| ->]).
    + exists ext. split; [done|]. apply ends_with_spec. by exists stem.
    + rewrite !no_newline_app in Hp. cbn in Hp.
      by rewrite !andb_false_r in Hp.
  - intros (ext & Hin & Hends). apply ends_with_spec in Hends as [stem ->].
    exists stem, ext. rewrite no_newline_app in Hp.
    apply andb_true_iff in Hp as [Hstem _]. auto.
Qed.

Lemma has_media_extension_last_segment (p : string) :
  has_media_extension p
  = has_media_extension (List.last (Str.split_slash p) "").
Proof.
  unfold has_media_extension, Re.extensions. cbn [existsb].
  by rewrite !(ends_with_last_segment p).
Qed.

(** X17. For every entry below the directory, file or directory, whose
    path has no newline: discovery with the default pattern returns the
    path exactly when the name of the entry ends with a dot and a listed
    extension and the path does not contain the ignore substring. *)
Lemma discovery_by_name (E : env) (directory : string)
    (ignore : option string) (found : list string) (q : Pathlib.path)
    (e : Fs.entry) :
  get_files_recursive E directory None ignore None = Return found ->
  In (q, e)
    (Fs.rglob_entries (Pathlib.parse directory) (listing E directory)) ->
  Str.no_slash (Fs.entry_name e) = true ->
  Re.no_newline (Pathlib.to_str q) = true ->
  In (Pathlib.to_str q) found
  <-> has_media_extension (Fs.entry_name e) = true
      /\ (forall ig, ignore = Some ig ->
            ~ exists a b, Pathlib.to_str q = a +:+ ig +:+ b).
Proof.
  intros Hfound Hin Hname Hnl.
  rewrite (in_discovered E directory ignore found _ Hfound).
  rewrite default_pattern_spec, (accepted_no_newline _ Hnl).
  rewrite has_media_extension_last_segment.
  destruct (rglob_entries_shape _ _ _ _ Hin) as (d & Hq & Hroot).
  assert (List.last (Str.split_slash (Pathlib.to_str q)) ""
          = Fs.entry_name e) as ->.
  { rewrite Hq. destruct (to_str_joinpath d (Fs.entry_name e)) as [->|[pre ->]].
    - rewrite Hroot. apply parse_root.
    - by rewrite split_slash_no_slash.
    - rewrite split_slash_app_slash, (split_slash_no_slash _ Hname).
      apply last_last. }
  assert (In (Pathlib.to_str q)
            (map Pathlib.to_str
               (Fs.rglob (Pathlib.parse directory) (listing E directory))))
    as Hlisted by (apply in_rglob; eauto).
  split.
  - intros (_ & Hext & Hig). split; [done|].
    intros ig Heq. apply contains_false. auto.
  - intros [Hext Hig]. repeat split; try done.
    intros ig Heq. apply contains_false. auto.
Qed.

Lemma discovery_by_name_witness :
  In "d/a.wav" ["d/a.wav"; "d/clips.mp4"; "d/take.wav" +:+ Re.nl]
  <-> has_media_extension "a.wav" = true
      /\ (forall ig, @None string = Some ig ->
            ~ exists a b, "d/a.wav" = a +:+ ig +:+ b).
Proof.
  apply (discovery_by_name clips_env "d" None
           ["d/a.wav"; "d/clips.mp4"; "d/take.wav" +:+ Re.nl]
           (Pathlib.joinpath (Pathlib.parse "d") "a.wav") (Fs.File "a.wav")).
  - reflexivity.
  - left. reflexivity.
  - reflexivity.
  - reflexivity.
Defined.

(** The paths that discovery hands to the driver name files: each ends
    with the name of its entry. *)
Lemma discovered_names_file (directory : string) (es : list Fs.entry)
    (q : Pathlib.path) (e : Fs.entry) :
  In (q, e) (Fs.rglob_entries (Pathlib.parse directory) es) ->
  proper (Fs.entry_name e) ->
  names_file (Pathlib.to_str q) = true.
Proof.
  intros Hin [Hpart Hname]. unfold names_file.
  destruct (rglob_entries_shape _ _ _ _ Hin) as (d & -> & Hroot).
  destruct (to_str_joinpath d (Fs.entry_name e)) as [->|[pre ->]].
  - rewrite Hroot. apply parse_root.
  - by rewrite split_slash_no_slash.
  - rewrite split_slash_app_slash, (split_slash_no_slash _ Hname).
    by rewrite last_last.
Qed.

Lemma is_part_long (s : string) :
  2 <= String.length s -> Pathlib.is_part s = true.
Proof.
  intros Hlen. unfold Pathlib.is_part.
  rewrite andb_true_iff, !negb_true_iff, !String.eqb_neq.
  destruct s as [|c [|d s]]; simpl in Hlen; try lia. by split.
Qed.

(** Appending a slash-free extension to a string changes its last
    component only. *)
Lemma components_ext (f : string) :
  exists init b,
    forall ext, Str.no_slash ext = true -> 2 <= String.length ext ->
      Pathlib.components (f +:+ ext) = init ++ [b +:+ ext].
Proof.
  destruct (last_slash_cases f) as [Hf|(a & b & -> & Hb)].
  - exists [], f. intros ext Hext Hlen.
    rewrite components_no_slash by by rewrite no_slash_app, Hf, Hext.
    rewrite is_part_long; [done|]. rewrite str_length_app. lia.
  - exists (Pathlib.components a), b. intros ext Hext Hlen.
    rewrite !str_app_assoc, components_app_slash.
    rewrite (components_no_slash (b +:+ ext))
      by by rewrite no_slash_app, Hb, Hext.
    rewrite is_part_long; [done|]. rewrite str_length_app. lia.
Qed.

(** The sidecar is another file than the transcript. *)
Lemma sidecar_location (file : string) :
  Fs.resolve (transcribed_file file +:+ ".json")
  <> Fs.resolve (transcribed_file file).
Proof.
  unfold Fs.resolve, transcribed_file. rewrite str_app_assoc.
  destruct (components_ext file) as (init & b & Hext).
  rewrite !Hext by (done || (simpl; lia)).
  intros [= _ Heq]. apply app_inv_head in Heq. injection Heq as Heq.
  apply (inj (String.append b)) in Heq. discriminate.
Qed.

(** ** The transcription driver *)

Lemma logged_logged (w : world) (t u : list event) :
  logged (logged w t) u = logged w (t ++ u).
Proof. unfold logged. cbn. by rewrite <- List.app_assoc. Qed.

Lemma logged_nil (w : world) : logged w [] = w.
Proof. destruct w. unfold logged. cbn. by rewrite List.app_nil_r. Qed.

Lemma path_exists_run (s : string) (w : world) :
  path_exists s w
  = (Return (bool_decide (is_Some (files w !! Fs.resolve s))), w).
Proof. unfold path_exists. by rewrite resolve_parse. Qed.

(** What a run of [transcribe_file_cli] does: one run of the executable,
    whose standard output replaces the content of the output file. *)
Lemma transcribe_file_cli_run (E : env) (file modelType language : string)
    (w : world) :
  transcribe_file_cli E file modelType language w
  = let cmd := cmd_list file modelType language in
    let loc := Fs.resolve (output_file file) in
    match whisper_cli E cmd with
    | NotStarted =>
        (Raise FileNotFoundError, logged (written w loc "") [Spawned cmd])
    | Exited rc out =>
        (if (rc =? 0)%Z then Return (PyCompletedProcess cmd rc)
         else Raise (CalledProcessError rc),
         logged (written w loc out) [Spawned cmd])
    end.
Proof.
  unfold transcribe_file_cli, subprocess_run, bind, open_w, emit.
  fold (output_file file). fold (cmd_list file modelType language).
  cbn zeta. cbn [files trace].
  destruct (whisper_cli E _) as [rc out|]; [|reflexivity].
  unfold file_write, raise, pure, logged, written. cbn [files trace andb].
  rewrite lookup_insert_eq, insert_insert_eq. cbn [default].
  rewrite str_app_nil_l. by destruct (rc =? 0)%Z.
Qed.

(** The skip branch: the output is there and force is off. *)
Lemma transcribe_file_skip (E : env) (file modelType : string)
    (climode : bool) (w : world) :
  is_Some (files w !! Fs.resolve (transcribed_file file)) ->
  transcribe_file E file modelType false climode w
  = (Return (PyStr (transcribed_file file)),
     logged w [Attempting file; Skipping file]).
Proof.
  intros Hthere. unfold transcribe_file, bind at 1 2. unfold emit at 1.
  rewrite path_exists_run. cbn [files trace].
  fold (transcribed_file file).
  rewrite bool_decide_eq_true_2 by done. cbn [andb negb].
  unfold bind, emit, pure, logged. cbn [files trace].
  by rewrite <- List.app_assoc.
Qed.

(** Past the skip branch with the external-process strategy. *)
Lemma transcribe_file_climode (E : env) (file modelType : string)
    (force : bool) (w : world) :
  force = true \/ files w !! Fs.resolve (transcribed_file file) = None ->
  transcribe_file E file modelType force true w
  = transcribe_file_cli E file modelType "en" (logged w [Attempting file]).
Proof.
  intros Hgo. unfold transcribe_file, bind at 1 2. unfold emit at 1.
  rewrite path_exists_run. cbn [files trace].
  fold (transcribed_file file).
  assert (bool_decide (is_Some (files w !! Fs.resolve (transcribed_file file)))
          && negb force = false) as ->.
  { destruct Hgo as [->|Hnone]; [apply andb_false_r|].
    rewrite bool_decide_eq_false_2; [done|]. rewrite Hnone. by intros [? ?]. }
  unfold bind, pure, logged.
  by destruct (transcribe_file_cli _ _ _ _ _) as [[r|e] w'].
Qed.

(** Past the skip branch with the in-process strategy, case by case: the
    engine calls, the text file, the sidecar. *)
Lemma transcribe_file_inprocess (E : env) (file modelType : string)
    (force : bool) (w : world) :
  force = true \/ files w !! Fs.resolve (transcribed_file file) = None ->
  transcribe_file E file modelType force false w
  = let w1 := logged w [Attempting file; ModelLoaded modelType] in
    let txt := Fs.resolve (transcribed_file file) in
    let json := Fs.resolve (transcribed_file file +:+ ".json") in
    match load_model E modelType with
    | Raise (RuntimeError _) => (Return (PyStr file), w1)
    | Raise e => (Raise e, w1)
    | Return mdl =>
        let w2 := logged w1 [ModelRun file] in
        match model_transcribe E mdl file with
        | Raise (RuntimeError _) => (Return (PyStr file), w2)
        | Raise e => (Raise e, w2)
        | Return result =>
            match subscript result "text" with
            | Raise e => (Raise e, written w2 txt "")
            | Return (PyStr text) =>
                (Raise TypeError, written (written w2 txt text) json "")
            | Return _ => (Raise TypeError, written w2 txt "")
            end
        end
    end.
Proof.
  intros Hgo. unfold transcribe_file, bind at 1 2. unfold emit at 1.
  rewrite path_exists_run. cbn [files trace].
  fold (transcribed_file file).
  assert (bool_decide (is_Some (files w !! Fs.resolve (transcribed_file file)))
          && negb force = false) as ->.
  { destruct Hgo as [->|Hnone]; [apply andb_false_r|].
    rewrite bool_decide_eq_false_2; [done|]. rewrite Hnone. by intros [? ?]. }
  unfold try_except_RuntimeError, bind, emit, lift, pure, logged, written.
  cbn [files trace]. rewrite <- !List.app_assoc. cbn [List.app].
  destruct (load_model E modelType) as [mdl|e]; [|by destruct e].
  destruct (model_transcribe E mdl file) as [result|e]; [|by destruct e].
  unfold open_w. cbn [files trace].
  destruct (subscript result "text") as [text|e] eqn:Hsub.
  - destruct result; try discriminate.
    destruct text; cbn [file_write raise files trace]; try reflexivity.
    rewrite lookup_insert_eq, insert_insert_eq. cbn [default].
    by rewrite str_app_nil_l.
  - destruct result; cbn in Hsub; try (injection Hsub as <-; reflexivity).
    destruct (assoc "text" items); [discriminate | by injection Hsub as <-].
Qed.

Lemma logged_written (w : world) (t : list event) (loc : Fs.location)
    (content : string) :
  written (logged w t) loc content = logged (written w loc content) t.
Proof. reflexivity. Qed.

(** C2. When the output is there and force is off, [transcribe_file] runs
    no transcription and returns the output path, leaving the files as
    they are. Hence, for a file without output on which the executable
    succeeds, a first call with force off runs the executable once and
    writes the output, and a second call runs nothing and returns the
    path of that output. *)
Theorem skip_policy_idempotent (E : env) (file modelType : string) :
  (forall w climode,
     is_Some (files w !! Fs.resolve (transcribed_file file)) ->
     transcribe_file E file modelType false climode w
     = (Return (PyStr (transcribed_file file)),
        logged w [Attempting file; Skipping file]))
  /\ (forall w stdout,
        names_file file = true ->
        files w !! Fs.resolve (transcribed_file file) = None ->
        whisper_cli E (cmd_list file modelType "en") = Exited 0 stdout ->
        let w1 :=
          logged (written w (Fs.resolve (transcribed_file file)) stdout)
            [Attempting file; Spawned (cmd_list file modelType "en")] in
        transcribe_file E file modelType false true w
        = (Return (PyCompletedProcess (cmd_list file modelType "en") 0), w1)
        /\ transcribe_file E file modelType false true w1
           = (Return (PyStr (transcribed_file file)),
              logged w1 [Attempting file; Skipping file])).
Proof.
  split.
  - intros w climode Hthere. by apply transcribe_file_skip.
  - intros w stdout Hname Hnone Hrun w1. split.
    + rewrite transcribe_file_climode by auto.
      rewrite transcribe_file_cli_run. cbn zeta. rewrite Hrun.
      rewrite cli_output_location by done. cbn [Z.eqb].
      by rewrite logged_written, logged_logged.
    + apply transcribe_file_skip. subst w1. unfold logged, written.
      cbn [files]. fold (transcribed_file file).
      rewrite lookup_insert_eq. by eexists.
Qed.

Lemma skip_policy_idempotent_witness :
  transcribe_file hello_env "a.wav" "base.en" false true done_world
  = (Return (PyStr "a.wav.transcribed.txt"),
     logged done_world [Attempting "a.wav"; Skipping "a.wav"])
  /\ fst (transcribe_file hello_env "a.wav" "base.en" false true empty_world)
     = Return (PyCompletedProcess (cmd_list "a.wav" "base.en" "en") 0).
Proof.
  destruct (skip_policy_idempotent hello_env "a.wav" "base.en")
    as [Hskip Htwice].
  split.
  - apply (Hskip done_world true). eexists. vm_compute. reflexivity.
  - destruct (Htwice empty_world "hello") as [Hfirst _];
      [reflexivity | reflexivity | reflexivity |].
    rewrite Hfirst. reflexivity.
Defined.

(** C3. When the in-process engine raises [RuntimeError], from loading the
    model or from transcribing, [transcribe_file] with [climode] off does
    not raise: it returns the input path, and no file is written or
    changed, so a prior output stays as it was. *)
Theorem inprocess_failure_returns_input (E : env) (file modelType : string)
    (force : bool) (w : world) (msg : string) :
  force = true \/ files w !! Fs.resolve (transcribed_file file) = None ->
  (load_model E modelType = Raise (RuntimeError msg)
   \/ exists mdl, load_model E modelType = Return mdl
        /\ model_transcribe E mdl file = Raise (RuntimeError msg)) ->
  exists w',
    transcribe_file E file modelType force false w = (Return (PyStr file), w')
    /\ files w' = files w.
Proof.
  intros Hgo Hraise. rewrite transcribe_file_inprocess by done. cbn zeta.
  destruct Hraise as [->|(mdl & -> & ->)]; eexists; split; reflexivity.
Qed.

Lemma inprocess_failure_returns_input_witness :
  exists w',
    transcribe_file failing_env "a.wav" "large" true false done_world
    = (Return (PyStr "a.wav"), w')
    /\ files w' = files done_world.
Proof.
  apply (inprocess_failure_returns_input failing_env "a.wav" "large" true
           done_world "Failed to load audio").
  - left. reflexivity.
  - right. exists tt. split; reflexivity.
Defined.

(** C4, on the code. When the model call succeeds with a dictionary that
    has a string under ["text"], [transcribe_file] with [climode] off
    writes that text to the output file, creates the sidecar empty, and
    then raises [TypeError] from [jf.write(result)]: a dictionary is not a
    string. It does not return the output path. *)
Theorem inprocess_success_raises (E : env) (file modelType : string)
    (force : bool) (w : world) (mdl : model_type E)
    (items : list (string * pyval)) (text : string) :
  force = true \/ files w !! Fs.resolve (transcribed_file file) = None ->
  load_model E modelType = Return mdl ->
  model_transcribe E mdl file = Return (PyDict items) ->
  assoc "text" items = Some (PyStr text) ->
  exists w',
    transcribe_file E file modelType force false w = (Raise TypeError, w')
    /\ files w'
       = <[Fs.resolve (transcribed_file file +:+ ".json") := ""]>
           (<[Fs.resolve (transcribed_file file) := text]> (files w)).
Proof.
  intros Hgo Hload Hrun Htext. rewrite transcribe_file_inprocess by done.
  cbn zeta. rewrite Hload, Hrun. cbn [subscript]. rewrite Htext.
  eexists. split; reflexivity.
Qed.

Lemma inprocess_success_raises_witness :
  exists w',
    transcribe_file hello_env "a.wav" "large" true false empty_world
    = (Raise TypeError, w')
    /\ files w'
       = <[Fs.resolve "a.wav.transcribed.txt.json" := ""]>
           (<[Fs.resolve "a.wav.transcribed.txt" := "hello"]> ∅).
Proof.
  apply (inprocess_success_raises hello_env "a.wav" "large" true empty_world
           tt [("text", PyStr "hello"); ("segments", PyList []);
               ("language", PyStr "en")] "hello").
  - left. reflexivity.
  - reflexivity.
  - reflexivity.
  - reflexivity.
Defined.

(** Whatever the engine returns, the in-process strategy never returns the
    output path: the text must come from a subscript, which a string does
    not have, and the sidecar takes a string only. *)
Lemma inprocess_never_returns_output (E : env) (file modelType : string)
    (force : bool) (w : world) :
  force = true \/ files w !! Fs.resolve (transcribed_file file) = None ->
  fst (transcribe_file E file modelType force false w)
  <> Return (PyStr (transcribed_file file)).
Proof.
  intros Hgo. rewrite transcribe_file_inprocess by done. cbn zeta.
  assert (PyStr file <> PyStr (transcribed_file file)) as Hne.
  { intros [= Heq]. unfold transcribed_file in Heq.
    apply (f_equal String.length) in Heq. rewrite str_length_app in Heq.
    simpl in Heq. lia. }
  destruct (load_model E modelType) as [mdl|[]]; cbn [fst]; try congruence.
  destruct (model_transcribe E mdl file) as [res|[]]; cbn [fst];
    try congruence.
  destruct (subscript res "text") as [[]|]; cbn [fst]; congruence.
Qed.

(** C5. For a file whose output is there already, [transcribe_file] with
    force on (and the default external-process strategy) does not take
    the skip branch: it runs the executable once, and the output file is
    rewritten with what that run printed. *)
Theorem force_regenerates_output (E : env) (file modelType : string)
    (w : world) :
  names_file file = true ->
  is_Some (files w !! Fs.resolve (transcribed_file file)) ->
  exists r w',
    transcribe_file E file modelType true true w = (r, w')
    /\ trace w'
       = trace w ++ [Attempting file; Spawned (cmd_list file modelType "en")]
    /\ files w'
       = <[Fs.resolve (transcribed_file file) :=
             match whisper_cli E (cmd_list file modelType "en") with
             | Exited _ out => out
             | NotStarted => ""
             end]> (files w).
Proof.
  intros Hname _. rewrite transcribe_file_climode by auto.
  rewrite transcribe_file_cli_run. cbn zeta.
  rewrite cli_output_location by done.
  destruct (whisper_cli E _) as [rc out|]; do 2 eexists;
    (split; [reflexivity|]); unfold logged, written; cbn [files trace];
    by rewrite <- List.app_assoc.
Qed.

Lemma force_regenerates_output_witness :
  exists r w',
    transcribe_file hello_env "a.wav" "base.en" true true done_world = (r, w')
    /\ trace w'
       = [Attempting "a.wav"; Spawned (cmd_list "a.wav" "base.en" "en")]
    /\ files w'
       = <[Fs.resolve "a.wav.transcribed.txt" := "hello"]> (files done_world).
Proof.
  apply (force_regenerates_output hello_env "a.wav" "base.en" done_world).
  - reflexivity.
  - eexists. vm_compute. reflexivity.
Defined.

(** With force on and the in-process strategy the skip branch is not taken
    either: the engine is called, and when it returns a dictionary with a
    string under ["text"], the output file is rewritten with that text. *)
Lemma force_inprocess_rewrites (E : env) (file modelType : string)
    (w : world) (mdl : model_type E) (items : list (string * pyval))
    (text : string) :
  load_model E modelType = Return mdl ->
  model_transcribe E mdl file = Return (PyDict items) ->
  assoc "text" items = Some (PyStr text) ->
  let w' := snd (transcribe_file E file modelType true false w) in
  trace w' = trace w ++ [Attempting file; ModelLoaded modelType; ModelRun file]
  /\ files w' !! Fs.resolve (transcribed_file file) = Some text.
Proof.
  intros Hload Hrun Htext. rewrite transcribe_file_inprocess by auto.
  cbn zeta. rewrite Hload, Hrun. cbn [subscript]. rewrite Htext.
  unfold logged, written. cbn [snd files trace]. split.
  - by rewrite <- List.app_assoc.
  - rewrite lookup_insert_ne, lookup_insert_eq; [done|].
    apply sidecar_location.
Qed.

(** C6. For every input path that names a file, [transcribe_file_cli]
    writes to the place that the input path with [.transcribed.txt]
    appended names, and what it leaves there is the standard output of
    the executable, as it was printed. *)
Theorem cli_output_naming (E : env) (file modelType language : string)
    (w : world) (rc : Z) (stdout : string) :
  names_file file = true ->
  whisper_cli E (cmd_list file modelType language) = Exited rc stdout ->
  exists r w',
    transcribe_file_cli E file modelType language w = (r, w')
    /\ files w'
       = <[Fs.resolve (file +:+ ".transcribed.txt") := stdout]> (files w)
    /\ files w' !! Fs.resolve (file +:+ ".transcribed.txt") = Some stdout.
Proof.
  intros Hname Hrun. rewrite transcribe_file_cli_run. cbn zeta.
  rewrite Hrun, cli_output_location by done.
  do 2 eexists. split; [reflexivity|]. unfold logged, written.
  cbn [files]. split; [reflexivity|]. apply lookup_insert_eq.
Qed.

Lemma cli_output_naming_witness :
  exists r w',
    transcribe_file_cli hello_env "a.wav" "base.en" "en" empty_world = (r, w')
    /\ files w' = <[Fs.resolve "a.wav.transcribed.txt" := "hello"]> ∅
    /\ files w' !! Fs.resolve "a.wav.transcribed.txt" = Some "hello".
Proof.
  apply (cli_output_naming hello_env "a.wav" "base.en" "en" empty_world 0
           "hello").
  - reflexivity.
  - reflexivity.
Defined.

(** For [a.wav] the string that [transcribe_file_cli] opens starts with
    the directory [.], and leads to [a.wav.transcribed.txt] in the
    current directory. *)
Example output_file_a_wav :
  output_file "a.wav" = "./a.wav.transcribed.txt"
  /\ Fs.resolve (output_file "a.wav") = Fs.resolve "a.wav.transcribed.txt"
  /\ output_file "media/talk.mp4" = "media/talk.mp4.transcribed.txt".
Proof. repeat split; reflexivity. Qed.

(** A string that ends with a slash names no file, and for it the two
    names part ways: [transcribe_file_cli] drops the slash, the skip test
    of [transcribe_file] does not. *)
Example output_file_trailing_slash :
  names_file "a.wav/" = false
  /\ Fs.resolve (output_file "a.wav/") = (false, ["a.wav.transcribed.txt"])
  /\ Fs.resolve (transcribed_file "a.wav/")
     = (false, ["a.wav"; ".transcribed.txt"]).
Proof. repeat split; reflexivity. Qed.

(** C7. When the executable exits with a non-zero status,
    [transcribe_file_cli] raises [CalledProcessError] to its caller; the
    executable was run once and not again, and the output file that was
    opened for it is not removed: it stays, holding what the run
    printed. *)
Theorem cli_failure_propagates (E : env) (file modelType language : string)
    (w : world) (rc : Z) (stdout : string) :
  whisper_cli E (cmd_list file modelType language) = Exited rc stdout ->
  rc <> 0%Z ->
  exists w',
    transcribe_file_cli E file modelType language w
    = (Raise (CalledProcessError rc), w')
    /\ trace w' = trace w ++ [Spawned (cmd_list file modelType language)]
    /\ files w' = <[Fs.resolve (output_file file) := stdout]> (files w)
    /\ files w' !! Fs.resolve (output_file file) = Some stdout.
Proof.
  intros Hrun Hrc. rewrite transcribe_file_cli_run. cbn zeta. rewrite Hrun.
  apply Z.eqb_neq in Hrc. rewrite Hrc.
  eexists. split; [reflexivity|]. split; [reflexivity|].
  split; [reflexivity|]. unfold logged, written. cbn [files].
  apply lookup_insert_eq.
Qed.

Lemma cli_failure_propagates_witness :
  exists w',
    transcribe_file_cli failing_env "a.wav" "base.en" "en" empty_world
    = (Raise (CalledProcessError 1), w')
    /\ trace w' = [Spawned (cmd_list "a.wav" "base.en" "en")]
    /\ files w' = <[Fs.resolve (output_file "a.wav") := ""]> ∅
    /\ files w' !! Fs.resolve (output_file "a.wav") = Some "".
Proof.
  apply (cli_failure_propagates failing_env "a.wav" "base.en" "en"
           empty_world 1 "").
  - reflexivity.
  - lia.
Defined.

(** The driver has no handler around the external-process strategy: the
    exception of [transcribe_file_cli] is the outcome of
    [transcribe_file]. *)
Lemma climode_failure_propagates (E : env) (file modelType : string)
    (force : bool) (w : world) (rc : Z) (stdout : string) :
  force = true \/ files w !! Fs.resolve (transcribed_file file) = None ->
  whisper_cli E (cmd_list file modelType "en") = Exited rc stdout ->
  rc <> 0%Z ->
  fst (transcribe_file E file modelType force true w)
  = Raise (CalledProcessError rc).
Proof.
  intros Hgo Hrun Hrc. rewrite transcribe_file_climode by done.
  rewrite transcribe_file_cli_run. cbn zeta. rewrite Hrun.
  apply Z.eqb_neq in Hrc. by rewrite Hrc.
Qed.

(** The file that a failed run leaves behind counts as an output: the
    next call with force off skips the file and returns the path of an
    empty transcript. *)
Example failed_run_is_skipped_next :
  let first :=
    transcribe_file failing_env "a.wav" "base.en" false true empty_world in
  let second :=
    transcribe_file failing_env "a.wav" "base.en" false true (snd first) in
  fst first = Raise (CalledProcessError 1)
  /\ fst second = Return (PyStr "a.wav.transcribed.txt")
  /\ files (snd second) !! Fs.resolve "a.wav.transcribed.txt" = Some "".
Proof. repeat split; vm_compute; reflexivity. Qed.

(** C10, on the code. With the external-process strategy a successful
    call returns the completed-process object, and the skip branch
    returns the output path; with the in-process strategy a successful
    model call ends in [TypeError], not in the output path. *)
Theorem driver_return_values :
  fst (transcribe_file hello_env "a.wav" "base.en" true true empty_world)
  = Return (PyCompletedProcess (cmd_list "a.wav" "base.en" "en") 0)
  /\ fst (transcribe_file hello_env "a.wav" "base.en" false false done_world)
     = Return (PyStr "a.wav.transcribed.txt")
  /\ fst (transcribe_file hello_env "a.wav" "base.en" true false empty_world)
     = Raise TypeError.
Proof. repeat split; vm_compute; reflexivity. Qed.

(** When the external-process strategy is taken and the executable exits
    with status 0, the driver returns what [transcribe_file_cli] returns:
    the completed-process object. *)
Lemma climode_returns_completed_process (E : env) (file modelType : string)
    (force : bool) (w : world) (stdout : string) :
  force = true \/ files w !! Fs.resolve (transcribed_file file) = None ->
  whisper_cli E (cmd_list file modelType "en") = Exited 0 stdout ->
  fst (transcribe_file E file modelType force true w)
  = Return (PyCompletedProcess (cmd_list file modelType "en") 0)
  /\ fst (transcribe_file E file modelType force true w)
     = fst (transcribe_file_cli E file modelType "en"
              (logged w [Attempting file])).
Proof.
  intros Hgo Hrun. rewrite transcribe_file_climode by done.
  rewrite transcribe_file_cli_run. cbn zeta. by rewrite Hrun.
Qed.

(** ** The [transcribe] command *)

Lemma attempts_app (t u : list event) :
  attempts (t ++ u) = attempts t ++ attempts u.
Proof.
  induction t as [|e t IH]; [reflexivity|].
  destruct e; cbn [List.app attempts]; by rewrite IH.
Qed.

(** Closes a goal of the form [run = (?r, ?w') /\ trace ?w' = _ /\ _]
    once the run is a pair and the events after the first are known. *)
Ltac trace_after t :=
  do 2 eexists; exists t;
  (split; [reflexivity|]); cbn [files trace];
  rewrite <- ?List.app_assoc; done.

(** Every call of [transcribe_file] announces its file once, whatever
    happens next. *)
Lemma transcribe_file_attempt (E : env) (file modelType : string)
    (force climode : bool) (w : world) :
  exists r w' t,
    transcribe_file E file modelType force climode w = (r, w')
    /\ trace w' = trace w ++ Attempting file :: t
    /\ attempts t = [].
Proof.
  assert (force = false
          /\ is_Some (files w !! Fs.resolve (transcribed_file file))
          \/ (force = true
              \/ files w !! Fs.resolve (transcribed_file file) = None))
    as [[-> Hthere]|Hgo].
  { destruct force; [auto|].
    destruct (files w !! _) eqn:Hl; [left; eauto | auto]. }
  - rewrite transcribe_file_skip by done. unfold logged.
    trace_after [Skipping file].
  - destruct climode.
    + rewrite transcribe_file_climode, transcribe_file_cli_run by done.
      cbn zeta. unfold logged, written.
      destruct (whisper_cli E _) as [rc out|];
        trace_after [Spawned (cmd_list file modelType "en")].
    + rewrite transcribe_file_inprocess by done. cbn zeta.
      unfold logged, written.
      destruct (load_model E modelType) as [mdl|e];
        [|destruct e; trace_after [ModelLoaded modelType]].
      destruct (model_transcribe E mdl file) as [res|e];
        [|destruct e; trace_after [ModelLoaded modelType; ModelRun file]].
      destruct (subscript res "text") as [[]|e];
        trace_after [ModelLoaded modelType; ModelRun file].
Qed.

(** The loop of the command: the files are taken in order, and the loop
    ends with the list or at the first call that raises. *)
Lemma for_each_transcribe_file (E : env) (modelType : string)
    (force climode : bool) (found : list string) (w : world) :
  exists r w' t,
    for_each found (fun f =>
      transcribe_file E f modelType force climode ;; pure tt) w = (r, w')
    /\ trace w' = trace w ++ t
    /\ match r with
       | Return _ => attempts t = found
       | Raise _ =>
           exists done f rest,
             found = done ++ f :: rest /\ attempts t = done ++ [f]
       end.
Proof.
  revert w. induction found as [|f found IH]; intros w.
  - exists (Return tt), w, []. cbn. by rewrite List.app_nil_r.
  - cbn [for_each]. unfold bind at 1 2.
    destruct (transcribe_file_attempt E f modelType force climode w)
      as (r1 & w1 & t1 & -> & Ht1 & Ha1).
    destruct r1 as [v|e].
    + unfold pure at 1. destruct (IH w1) as (r & w' & t & -> & Ht & Hr).
      exists r, w', (Attempting f :: t1 ++ t). split; [done|]. split.
      * rewrite Ht, Ht1, <- List.app_assoc. done.
      * cbn [attempts]. rewrite attempts_app, Ha1. cbn [List.app].
        destruct r as [u|e]; [by rewrite Hr|].
        destruct Hr as (done_ & g & rest & -> & ->).
        by exists (f :: done_), g, rest.
    + exists (Raise e), w1, (Attempting f :: t1). split; [done|].
      split; [done|]. exists [], f, found. cbn [attempts]. by rewrite Ha1.
Qed.

(** C9, as amended. The [transcribe] command takes the list that
    discovery returns and calls [transcribe_file] on its files one at a
    time, in the order of the list, each entry of the list at most once,
    until the list ends or a call raises: when the command returns, every
    file of the list was processed once; when a call raises, the files
    after it are not processed. When discovery itself raises, no file is
    processed. *)
Theorem transcribe_sequential (E : env) (directory : string)
    (pattern : option string) (ignore modelType : string)
    (force climode : bool) (w : world) :
  exists r w',
    transcribe E directory pattern ignore modelType force climode w = (r, w')
    /\ match
         get_files_recursive E directory (option_map Uncompiled pattern)
           (Some ignore) None
       with
       | Raise e => r = Raise e /\ w' = w
       | Return found =>
           exists t,
             trace w' = trace w ++ t
             /\ match r with
                | Return _ => attempts t = found
                | Raise _ =>
                    exists done f rest,
                      found = done ++ f :: rest /\ attempts t = done ++ [f]
                end
       end.
Proof.
  unfold transcribe, bind at 1, lift.
  destruct (get_files_recursive E directory _ _ _) as [found|e].
  - destruct (for_each_transcribe_file E modelType force climode found w)
      as (r & w' & t & Hrun & Ht & Hr).
    exists r, w'. split; [done|]. by exists t.
  - by exists (Raise e), w.
Qed.

(** C9, as stated, fails when a call raises: discovery returns [a.wav]
    and [b.wav], the executable exits with status 1 on [a.wav], the
    command ends with [CalledProcessError], and [b.wav] is never
    processed. *)
Lemma transcribe_stops_at_first_failure :
  get_files_recursive failing_env "." None (Some ".cmproj") None
  = Return ["a.wav"; "b.wav"]
  /\ fst (transcribe failing_env "." None ".cmproj" "base.en" false true
            empty_world)
     = Raise (CalledProcessError 1)
  /\ attempts
       (trace (snd (transcribe failing_env "." None ".cmproj" "base.en"
                      false true empty_world)))
     = ["a.wav"]
  /\ attempts
       (trace (snd (transcribe failing_env "." None ".cmproj" "base.en"
                      false true empty_world)))
     <> ["a.wav"; "b.wav"].
Proof.
  repeat split; try (vm_compute; reflexivity). vm_compute. discriminate.
Qed.

(** With the in-process strategy, which the command uses unless
    [--climode] is given, the first file whose model call succeeds ends
    the run with [TypeError]. *)
Example transcribe_inprocess_stops_after_first_file :
  fst (transcribe hello_env "." None ".cmproj" "base.en" false false
         empty_world)
  = Raise TypeError
  /\ attempts
       (trace (snd (transcribe hello_env "." None ".cmproj" "base.en"
                      false false empty_world)))
     = ["a.wav"].
Proof. split; vm_compute; reflexivity. Qed.

(** With the external-process strategy and an executable that works, the
    command processes the whole list. *)
Example transcribe_climode_processes_all :
  fst (transcribe hello_env "." None ".cmproj" "base.en" false true
         empty_world)
  = Return tt
  /\ attempts
       (trace (snd (transcribe hello_env "." None ".cmproj" "base.en"
                      false true empty_world)))
     = ["a.wav"; "b.wav"].
Proof. split; vm_compute; reflexivity. Qed.

(** ** The [discover] command *)

Lemma for_each_printed (found : list string) (w : world) :
  for_each found (fun f => emit (Printed f)) w
  = (Return tt, logged w (map Printed found)).
Proof.
  revert w. induction found as [|f found IH]; intros w.
  - cbn. by rewrite logged_nil.
  - cbn [for_each map]. unfold bind, emit at 1. rewrite IH.
    unfold logged. cbn [files trace]. by rewrite <- List.app_assoc.
Qed.

(** X16. The [discover] command prints the list that discovery returns,
    one path per line and in order, and changes no file. *)
Lemma discover_prints (E : env) (directory ignore : string) (w : world) :
  exists found,
    get_files_recursive E directory None (Some ignore) None = Return found
    /\ discover E directory None ignore w
       = (Return tt, logged w (map Printed found)).
Proof.
  destruct (discovery_default_pattern_returns E directory (Some ignore))
    as [found Hfound].
  exists found. split; [done|].
  unfold discover, bind, lift. cbn [option_map]. rewrite Hfound.
  apply for_each_printed.
Qed.

(** * Part III: further properties of the code *)

(** ** Discovery: the pattern argument, the ignore substring, the order *)

Lemma rglob_nil (dir : Pathlib.path) (es : list Fs.entry) :
  Fs.rglob dir es = [] <-> es = [].
Proof.
  split; [|by intros ->]. by destruct es.
Qed.

Lemma plain_string_pattern_raises_aux (E : env) (directory s : string)
    (ignore : option string) (action : option (string -> string)) :
  listing E directory <> [] ->
  get_files_recursive E directory (Some (Uncompiled s)) ignore action
  = Raise AttributeError.
Proof.
  intros Hne. unfold get_files_recursive.
  by destruct (listing E directory) as [|e es].
Qed.

(** X1. A pattern given as a plain string, which is what the command line
    passes, has no [match]: [get_files_recursive] raises [AttributeError]
    as soon as the directory holds one entry, whatever the string, the
    ignore substring and the transform; only on an empty directory does it
    return, with the empty list. *)
Theorem plain_string_pattern_raises (E : env) (directory s : string)
    (ignore : option string) (action : option (string -> string)) :
  get_files_recursive E directory (Some (Uncompiled s)) ignore action
  = match listing E directory with
    | [] => Return []
    | _ :: _ => Raise AttributeError
    end.
Proof.
  unfold get_files_recursive.
  destruct (listing E directory) as [|e es]; [|reflexivity].
  cbn. by destruct ignore, action.
Qed.

(** X2. With [--pattern] given, the [transcribe] and the [discover]
    commands end with [AttributeError] on every directory that is not
    empty: no file is processed, nothing is printed, and no file is
    written. *)
Theorem pattern_option_breaks_commands (E : env)
    (directory s ignore model : string) (force climode : bool) (w : world) :
  listing E directory <> [] ->
  transcribe E directory (Some s) ignore model force climode w
  = (Raise AttributeError, w)
  /\ discover E directory (Some s) ignore w = (Raise AttributeError, w).
Proof.
  intros Hne. unfold transcribe, discover, bind, lift. cbn [option_map].
  rewrite plain_string_pattern_raises_aux by done. done.
Qed.

Lemma pattern_option_breaks_commands_witness :
  transcribe hello_env "." (Some "wav") ".cmproj" "base.en" false true
    empty_world
  = (Raise AttributeError, empty_world)
  /\ discover hello_env "." (Some "wav") ".cmproj" empty_world
     = (Raise AttributeError, empty_world).
Proof.
  apply (pattern_option_breaks_commands hello_env "." "wav" ".cmproj"
           "base.en" false true empty_world).
  discriminate.
Defined.

Lemma contains_empty (h : string) : Str.contains "" h = true.
Proof. by destruct h. Qed.

Lemma filter_not_contains_empty (l : list string) :
  filter (fun f => negb (Str.contains "" f) = true) l = [].
Proof.
  induction l as [|x l IH]; [reflexivity|].
  rewrite filter_cons, contains_empty. cbn. by rewrite decide_False by done.
Qed.

(** X3. The empty string is a substring of every path: with [ignore=""]
    discovery returns the empty list, whatever the directory holds,
    whatever the compiled pattern and with or without a transform. *)
Theorem empty_ignore_excludes_everything (E : env) (directory : string)
    (pattern : option Re.re) (action : option (string -> string)) :
  get_files_recursive E directory (option_map Compiled pattern) (Some "")
    action
  = Return [].
Proof.
  assert (forall r,
    get_files_recursive E directory (Some (Compiled r)) (Some "") action
    = Return []) as Hr.
  { intros r. unfold get_files_recursive. rewrite select_compiled.
    cbn zeta iota. rewrite filter_not_contains_empty. by destruct action. }
  destruct pattern as [r|]; cbn [option_map]; [apply Hr|].
  rewrite get_files_recursive_default. apply Hr.
Qed.

(** X4. Without a transform, discovery neither reorders nor invents
    paths: what it returns is a sublist of what the traversal yields, and
    what it returns under an ignore substring is a sublist of what it
    returns without one. *)
Theorem discovery_keeps_order (E : env) (directory : string)
    (pattern : option Re.re) (ignore : option string) :
  exists found unfiltered,
    get_files_recursive E directory (option_map Compiled pattern) ignore None
    = Return found
    /\ get_files_recursive E directory (option_map Compiled pattern) None None
       = Return unfiltered
    /\ sublist found unfiltered
    /\ sublist unfiltered
         (map Pathlib.to_str
            (Fs.rglob (Pathlib.parse directory) (listing E directory))).
Proof.
  assert (forall r, exists found unfiltered,
    get_files_recursive E directory (Some (Compiled r)) ignore None
    = Return found
    /\ get_files_recursive E directory (Some (Compiled r)) None None
       = Return unfiltered
    /\ sublist found unfiltered
    /\ sublist unfiltered
         (map Pathlib.to_str
            (Fs.rglob (Pathlib.parse directory) (listing E directory))))
    as Hr.
  { intros r. rewrite !get_files_recursive_compiled.
    do 2 eexists. split; [reflexivity|]. split; [reflexivity|].
    cbn zeta iota. split; [|apply sublist_filter].
    destruct ignore; [apply sublist_filter | reflexivity]. }
  destruct pattern as [r|]; cbn [option_map]; [apply Hr|].
  rewrite !get_files_recursive_default. apply Hr.
Qed.

(** ** Discovery does not find what the driver writes *)

Lemma eqb_longer (s t : string) :
  String.length t < String.length s -> String.eqb s t = false.
Proof.
  intros Hlen. apply String.eqb_neq. intros ->. lia.
Qed.

(** An ending no longer than [t] is an ending of [f ++ t] exactly when it
    is an ending of [t]. *)
Lemma ends_with_app_short (f t suf : string) :
  String.length suf <= String.length t ->
  ends_with (f +:+ t) suf = ends_with t suf.
Proof.
  intros Hlen. induction f as [|c f IH]; [reflexivity|].
  rewrite str_app_cons. cbn [ends_with]. rewrite IH.
  rewrite eqb_longer; [done|]. cbn [String.length].
  rewrite str_length_app. lia.
Qed.

(** A string is rejected by the default pattern when its last five
    characters or more rule every listed extension out. *)
Lemma rejected_by_tail (f t : string) :
  5 <= String.length t ->
  forallb (fun ext =>
    negb (ends_with t ("." +:+ ext))
    && negb (ends_with t ("." +:+ ext +:+ Re.nl))) Re.extensions = true ->
  Re.match_ Re.default_pattern (f +:+ t) = false.
Proof.
  intros Hlen Htail. apply not_true_is_false. intros Hm.
  apply default_pattern_spec in Hm as (stem & ext & _ & Hin & Hp).
  rewrite forallb_forall in Htail. specialize (Htail ext Hin).
  apply andb_true_iff in Htail as [H1 H2].
  apply negb_true_iff in H1, H2.
  assert (String.length ext = 3) as Hext.
  { unfold Re.extensions in Hin. cbn in Hin.
    repeat (destruct Hin as [<-|Hin]; [reflexivity|]). done. }
  destruct Hp as [Hp|Hp].
  - assert (ends_with (f +:+ t) ("." +:+ ext) = true) as He
      by (apply ends_with_spec; eauto).
    rewrite ends_with_app_short in He; [congruence|].
    rewrite str_app_cons. cbn [String.length]. rewrite str_app_nil_l. lia.
  - assert (ends_with (f +:+ t) ("." +:+ ext +:+ Re.nl) = true) as He
      by (apply ends_with_spec; eauto).
    rewrite ends_with_app_short in He; [congruence|].
    rewrite str_app_cons. cbn [String.length].
    rewrite str_app_nil_l, str_length_app. cbn. lia.
Qed.

(** X5. Discovery with the default pattern never returns a transcript or
    a sidecar: no path it returns is some path with [.transcribed.txt] or
    [.transcribed.txt.json] appended, so what [transcribe_file] writes is
    not taken for media on a later run. *)
Theorem outputs_never_discovered (E : env) (directory : string)
    (ignore : option string) :
  exists found,
    get_files_recursive E directory None ignore None = Return found
    /\ Forall (fun p => forall f,
                 p <> transcribed_file f
                 /\ p <> transcribed_file f +:+ ".json") found.
Proof.
  destruct (discovery_default_pattern_returns E directory ignore)
    as [found Hfound].
  exists found. split; [done|]. apply Forall_forall. intros p Hp f.
  apply list_elem_of_In in Hp.
  apply (in_discovered E directory ignore found p Hfound) in Hp
    as (_ & Hm & _).
  split; intros ->.
  - unfold transcribed_file in Hm.
    rewrite rejected_by_tail in Hm; [done | simpl; lia | reflexivity].
  - unfold transcribed_file in Hm. rewrite str_app_assoc in Hm.
    rewrite rejected_by_tail in Hm; [done | simpl; lia | reflexivity].
Qed.

(** ** The driver: what it writes, what it returns, what it lets through *)





(** X7. [transcribe_file] returns the output path from the skip branch
    only: when its value is the output path, force was off, the output
    was there before the call, and the call ran neither the executable
    nor the engine and wrote nothing. *)
Theorem output_path_means_skipped (E : env) (file modelType : string)
    (force climode : bool) (w : world) :
  fst (transcribe_file E file modelType force climode w)
  = Return (PyStr (transcribed_file file)) ->
  force = false
  /\ is_Some (files w !! Fs.resolve (transcribed_file file))
  /\ snd (transcribe_file E file modelType force climode w)
     = logged w [Attempting file; Skipping file].
Proof.
  intros Hret.
  assert (force = false
          /\ is_Some (files w !! Fs.resolve (transcribed_file file))
          \/ (force = true
              \/ files w !! Fs.resolve (transcribed_file file) = None))
    as [[-> Hthere]|Hgo].
  { destruct force; [auto|].
    destruct (files w !! _) eqn:Hl; [left; eauto | auto]. }
  - by rewrite transcribe_file_skip.
  - exfalso. destruct climode.
    + rewrite transcribe_file_climode, transcribe_file_cli_run in Hret
        by done.
      cbn zeta in Hret. destruct (whisper_cli E _) as [rc out|]; [|done].
      by destruct (rc =? 0)%Z.
    + by apply (inprocess_never_returns_output E file modelType force w).
Qed.

Lemma output_path_means_skipped_witness :
  false = false
  /\ is_Some (files done_world !! Fs.resolve (transcribed_file "a.wav"))
  /\ snd (transcribe_file hello_env "a.wav" "base.en" false false done_world)
     = logged done_world [Attempting "a.wav"; Skipping "a.wav"].
Proof.
  apply (output_path_means_skipped hello_env "a.wav" "base.en" false false
           done_world).
  vm_compute. reflexivity.
Defined.

(** X8. The handler of the in-process strategy catches [RuntimeError]
    and nothing else: an exception of another class raised by
    [whisper.load_model] or by [model.transcribe] leaves [transcribe_file]
    as it is, and no file has been written by then. *)
Theorem other_engine_errors_propagate (E : env) (file modelType : string)
    (force : bool) (w : world) (e : exn) :
  force = true \/ files w !! Fs.resolve (transcribed_file file) = None ->
  (forall msg, e <> RuntimeError msg) ->
  (load_model E modelType = Raise e
   \/ exists mdl, load_model E modelType = Return mdl
        /\ model_transcribe E mdl file = Raise e) ->
  exists w',
    transcribe_file E file modelType force false w = (Raise e, w')
    /\ files w' = files w.
Proof.
  intros Hgo He Hraise. rewrite transcribe_file_inprocess by done. cbn zeta.
  destruct Hraise as [->|(mdl & -> & ->)];
    (destruct e; [by destruct (He msg)|..]); eexists; split; reflexivity.
Qed.

Lemma other_engine_errors_propagate_witness :
  exists w',
    transcribe_file clips_env "a.wav" "large" true false done_world
    = (Raise (OtherError "ImportError"), w')
    /\ files w' = files done_world.
Proof.
  apply (other_engine_errors_propagate clips_env "a.wav" "large" true
           done_world (OtherError "ImportError")).
  - left. reflexivity.
  - discriminate.
  - left. reflexivity.
Defined.

(** X9. The output file is opened before the text is taken from the
    result: when the model returns a dictionary without ["text"],
    [transcribe_file] raises [KeyError], which the handler does not
    catch, and the transcript is left empty, a prior one included. *)
Theorem missing_text_empties_transcript (E : env) (file modelType : string)
    (force : bool) (w : world) (mdl : model_type E)
    (items : list (string * pyval)) :
  force = true \/ files w !! Fs.resolve (transcribed_file file) = None ->
  load_model E modelType = Return mdl ->
  model_transcribe E mdl file = Return (PyDict items) ->
  assoc "text" items = None ->
  exists w',
    transcribe_file E file modelType force false w = (Raise KeyError, w')
    /\ files w' = <[Fs.resolve (transcribed_file file) := ""]> (files w).
Proof.
  intros Hgo Hload Hrun Htext. rewrite transcribe_file_inprocess by done.
  cbn zeta. rewrite Hload, Hrun. cbn [subscript]. rewrite Htext.
  eexists. split; reflexivity.
Qed.

Lemma missing_text_empties_transcript_witness :
  exists w',
    transcribe_file textless_env "a.wav" "large" true false done_world
    = (Raise KeyError, w')
    /\ files w'
       = <[Fs.resolve (transcribed_file "a.wav") := ""]> (files done_world).
Proof.
  apply (missing_text_empties_transcript textless_env "a.wav" "large" true
           done_world tt [("language", PyStr "en")]).
  - left. reflexivity.
  - reflexivity.
  - reflexivity.
  - reflexivity.
Defined.

(** X10. A run of the executable that does not end with status 0 still
    leaves the output file it was given, and that file passes for a
    transcript: the first call raises, and the next call with force off,
    with either strategy, skips the file and returns the output path
    without running anything. *)
Theorem failed_run_masks_retry (E : env) (file modelType : string)
    (w : world) :
  names_file file = true ->
  files w !! Fs.resolve (transcribed_file file) = None ->
  (forall out, whisper_cli E (cmd_list file modelType "en") <> Exited 0 out) ->
  exists e w1,
    transcribe_file E file modelType false true w = (Raise e, w1)
    /\ forall climode,
         transcribe_file E file modelType false climode w1
         = (Return (PyStr (transcribed_file file)),
            logged w1 [Attempting file; Skipping file]).
Proof.
  intros Hname Hnone Hfail.
  rewrite transcribe_file_climode, transcribe_file_cli_run by auto.
  cbn zeta. rewrite cli_output_location by done.
  destruct (whisper_cli E _) as [rc out|] eqn:Hrun.
  - destruct (rc =? 0)%Z eqn:Hrc.
    + apply Z.eqb_eq in Hrc as ->. by destruct (Hfail out).
    + do 2 eexists. split; [reflexivity|]. intros climode.
      apply transcribe_file_skip. unfold logged, written. cbn [files].
      rewrite lookup_insert_eq. by eexists.
  - do 2 eexists. split; [reflexivity|]. intros climode.
    apply transcribe_file_skip. unfold logged, written. cbn [files].
    rewrite lookup_insert_eq. by eexists.
Qed.

Lemma failed_run_masks_retry_witness :
  exists e w1,
    transcribe_file failing_env "a.wav" "base.en" false true empty_world
    = (Raise e, w1)
    /\ forall climode,
         transcribe_file failing_env "a.wav" "base.en" false climode w1
         = (Return (PyStr (transcribed_file "a.wav")),
            logged w1 [Attempting "a.wav"; Skipping "a.wav"]).
Proof.
  apply (failed_run_masks_retry failing_env "a.wav" "base.en" empty_world).
  - reflexivity.
  - reflexivity.
  - discriminate.
Defined.

(** ** Discovery on a well-formed directory *)

Lemma valid_name_proper (n : string) : valid_name n = true -> proper n.
Proof.
  unfold valid_name. intros H.
  apply andb_true_iff in H as [H Hslash].
  apply andb_true_iff in H as [Hpart _]. by split.
Qed.

(** Every entry that the traversal of a well-formed directory yields is
    well-formed. *)
Lemma rglob_entries_wf (es : list Fs.entry) (dir q : Pathlib.path)
    (e : Fs.entry) :
  forallb wf_entry es = true ->
  In (q, e) (Fs.rglob_entries dir es) ->
  wf_entry e = true.
Proof.
  assert (forall e0 : Fs.entry, forall dir0 q0 e1,
            wf_entry e0 = true -> In (q0, e1) (Fs.below dir0 e0) ->
            wf_entry e1 = true) as Hbelow.
  { intros e0. induction e0 as [n|n children IH] using entry_induction;
      intros dir0 q0 e1 Hwf Hin; [destruct Hin|].
    cbn [Fs.below] in Hin. unfold Fs.scan_dir in Hin.
    cbn [wf_entry] in Hwf. apply andb_true_iff in Hwf as [_ Hall].
    rewrite forallb_forall in Hall.
    apply in_app_iff in Hin as [Hin|Hin].
    - apply in_map_iff in Hin as (c & [= <- <-] & Hc). by apply Hall.
    - apply in_flat_map in Hin as (c & Hc & Hin).
      rewrite Forall_forall in IH.
      apply (IH c (proj2 (list_elem_of_In _ _) Hc) _ _ _ (Hall c Hc) Hin). }
  intros Hall Hin. rewrite forallb_forall in Hall.
  unfold Fs.rglob_entries, Fs.scan_dir in Hin.
  apply in_app_iff in Hin as [Hin|Hin].
  - apply in_map_iff in Hin as (c & [= <- <-] & Hc). by apply Hall.
  - apply in_flat_map in Hin as (c & Hc & Hin).
    by apply (Hbelow c _ _ _ (Hall c Hc) Hin).
Qed.

Lemma wf_entry_name (e : Fs.entry) :
  wf_entry e = true -> proper (Fs.entry_name e).
Proof.
  destruct e as [n|n children]; cbn [wf_entry Fs.entry_name]; intros H.
  - by apply valid_name_proper.
  - apply andb_true_iff in H as [H _]. apply andb_true_iff in H as [H _].
    by apply valid_name_proper.
Qed.

(** What discovery returns without a transform is among what the
    traversal yields. *)
Lemma found_in_listing (E : env) (directory : string) (pattern : option Re.re)
    (ignore : option string) (found : list string) (p : string) :
  get_files_recursive E directory (option_map Compiled pattern) ignore None
  = Return found ->
  In p found ->
  exists q e,
    In (q, e)
      (Fs.rglob_entries (Pathlib.parse directory) (listing E directory))
    /\ p = Pathlib.to_str q.
Proof.
  assert (forall r,
    get_files_recursive E directory (Some (Compiled r)) ignore None
    = Return found ->
    In p found ->
    In p (map Pathlib.to_str
            (Fs.rglob (Pathlib.parse directory) (listing E directory))))
    as Hr.
  { intros r. rewrite get_files_recursive_compiled. intros [= <-].
    cbn zeta. rewrite <- !list_elem_of_In.
    destruct ignore; rewrite !list_elem_of_filter; tauto. }
  intros Hfound Hin. apply in_rglob.
  destruct pattern as [r|]; cbn [option_map] in Hfound; [by apply (Hr r)|].
  rewrite get_files_recursive_default in Hfound.
  by apply (Hr Re.default_pattern).
Qed.

Lemma found_names_file (E : env) (directory : string) (pattern : option Re.re)
    (ignore : option string) (found : list string) :
  wf_tree (listing E directory) = true ->
  get_files_recursive E directory (option_map Compiled pattern) ignore None
  = Return found ->
  Forall (fun f => names_file f = true) found.
Proof.
  intros Hwf Hfound. apply Forall_forall. intros p Hp.
  apply list_elem_of_In in Hp.
  destruct (found_in_listing E directory pattern ignore found p Hfound Hp)
    as (q & e & Hin & ->).
  apply andb_true_iff in Hwf as [_ Hall].
  apply (discovered_names_file directory (listing E directory) q e Hin).
  apply wf_entry_name. by apply (rglob_entries_wf _ _ _ _ Hall Hin).
Qed.

Lemma get_files_recursive_returns (E : env) (directory : string)
    (pattern : option Re.re) (ignore : option string) :
  exists found,
    get_files_recursive E directory (option_map Compiled pattern) ignore None
    = Return found.
Proof.
  destruct pattern as [r|]; cbn [option_map].
  - rewrite get_files_recursive_compiled. eauto.
  - apply discovery_default_pattern_returns.
Qed.

(** X11. On a well-formed directory, every path that discovery returns
    (with a compiled pattern and no transform) names a file, and for each
    of them the two functions of the driver agree on the output: the file
    that [transcribe_file_cli] opens is the file whose existence
    [transcribe_file] tests before it skips. *)
Theorem discovered_paths_name_files (E : env) (directory : string)
    (pattern : option Re.re) (ignore : option string) :
  wf_tree (listing E directory) = true ->
  exists found,
    get_files_recursive E directory (option_map Compiled pattern) ignore None
    = Return found
    /\ Forall (fun f =>
         names_file f = true
         /\ Fs.resolve (output_file f) = Fs.resolve (transcribed_file f))
         found.
Proof.
  intros Hwf.
  destruct (get_files_recursive_returns E directory pattern ignore)
    as [found Hfound].
  exists found. split; [done|].
  pose proof (found_names_file E directory pattern ignore found Hwf Hfound)
    as Hnames.
  rewrite Forall_forall in Hnames. apply Forall_forall. intros f Hf.
  split; [by apply Hnames|]. apply cli_output_location. by apply Hnames.
Qed.

Lemma discovered_paths_name_files_witness :
  exists found,
    get_files_recursive hello_env "media" None (Some ".cmproj") None
    = Return found
    /\ Forall (fun f =>
         names_file f = true
         /\ Fs.resolve (output_file f) = Fs.resolve (transcribed_file f))
         found.
Proof.
  apply (discovered_paths_name_files hello_env "media" None (Some ".cmproj")).
  reflexivity.
Defined.

(** ** Whole runs of the [transcribe] command *)

(** A call whose engine raises [RuntimeError] returns, with the files as
    they were, whether it skips or not. *)
Lemma transcribe_file_silent (E : env) (file modelType : string)
    (force : bool) (w : world) :
  ((exists msg, load_model E modelType = Raise (RuntimeError msg))
   \/ exists mdl msg, load_model E modelType = Return mdl
        /\ model_transcribe E mdl file = Raise (RuntimeError msg)) ->
  exists v t,
    transcribe_file E file modelType force false w
    = (Return v, logged w (Attempting file :: t))
    /\ attempts t = [].
Proof.
  intros Hfail.
  assert (force = false
          /\ is_Some (files w !! Fs.resolve (transcribed_file file))
          \/ (force = true
              \/ files w !! Fs.resolve (transcribed_file file) = None))
    as [[-> Hthere]|Hgo].
  { destruct force; [auto|].
    destruct (files w !! _) eqn:Hl; [left; eauto | auto]. }
  - rewrite transcribe_file_skip by done.
    by eexists; exists [Skipping file].
  - rewrite transcribe_file_inprocess by done. cbn zeta.
    destruct Hfail as [[msg ->]|(mdl & msg & -> & ->)].
    + by eexists; exists [ModelLoaded modelType].
    + rewrite logged_logged.
      by eexists; exists [ModelLoaded modelType; ModelRun file].
Qed.

Lemma for_each_silent (E : env) (modelType : string) (force : bool)
    (found : list string) (w : world) :
  (forall f,
     (exists msg, load_model E modelType = Raise (RuntimeError msg))
     \/ exists mdl msg, load_model E modelType = Return mdl
          /\ model_transcribe E mdl f = Raise (RuntimeError msg)) ->
  exists t,
    for_each found (fun f =>
      transcribe_file E f modelType force false ;; pure tt) w
    = (Return tt, logged w t)
    /\ attempts t = found.
Proof.
  intros Hfail. revert w. induction found as [|f found IH]; intros w.
  - exists []. by rewrite logged_nil.
  - cbn [for_each]. unfold bind at 1 2.
    destruct (transcribe_file_silent E f modelType force w (Hfail f))
      as (v & t1 & -> & Ha1).
    unfold pure at 1.
    destruct (IH (logged w (Attempting f :: t1))) as (t & -> & Ha).
    exists ((Attempting f :: t1) ++ t). rewrite logged_logged.
    split; [done|]. rewrite attempts_app. cbn [attempts].
    by rewrite Ha1, Ha.
Qed.

(** X12. Failures of the engine are silent for a whole run: when every
    model call raises [RuntimeError], the [transcribe] command with the
    in-process strategy goes through the whole list that discovery
    returns, returns normally, and has written no file. *)
Theorem engine_failures_are_silent (E : env) (directory ignore model : string)
    (force : bool) (w : world) :
  (forall f,
     (exists msg, load_model E model = Raise (RuntimeError msg))
     \/ exists mdl msg, load_model E model = Return mdl
          /\ model_transcribe E mdl f = Raise (RuntimeError msg)) ->
  exists found t,
    get_files_recursive E directory None (Some ignore) None = Return found
    /\ transcribe E directory None ignore model force false w
       = (Return tt, logged w t)
    /\ attempts t = found
    /\ files (logged w t) = files w.
Proof.
  intros Hfail.
  destruct (discovery_default_pattern_returns E directory (Some ignore))
    as [found Hfound].
  destruct (for_each_silent E model force found w Hfail) as (t & Hrun & Ha).
  exists found, t. split; [done|].
  unfold transcribe, bind at 1, lift. cbn [option_map]. rewrite Hfound.
  by rewrite Hrun.
Qed.

Lemma engine_failures_are_silent_witness :
  exists found t,
    get_files_recursive failing_env "." None (Some ".cmproj") None
    = Return found
    /\ transcribe failing_env "." None ".cmproj" "base.en" true false
         done_world
       = (Return tt, logged done_world t)
    /\ attempts t = found
    /\ files (logged done_world t) = files done_world.
Proof.
  apply (engine_failures_are_silent failing_env "." ".cmproj" "base.en" true
           done_world).
  intros f. right. exists tt, "Failed to load audio". split; reflexivity.
Defined.






(** ** No path twice *)

Lemma NoDup_flat_map_key {A B K : Type} (f : A -> list B) (ka : A -> K)
    (kb : B -> K) (l : list A) :
  (forall x y, In x l -> In y (f x) -> kb y = ka x) ->
  NoDup (map ka l) ->
  (forall x, In x l -> NoDup (f x)) ->
  NoDup (flat_map f l).
Proof.
  induction l as [|a l IH]; intros Hkey Hnd Heach; [constructor|].
  cbn [flat_map map] in *. apply NoDup_cons in Hnd as [Ha Hnd].
  apply NoDup_app. split; [apply Heach; by left|]. split.
  - intros y Hy Hy'. apply list_elem_of_In in Hy, Hy'.
    apply in_flat_map in Hy' as (x & Hx & Hyx).
    apply Ha. apply list_elem_of_In, in_map_iff. exists x. split; [|done].
    transitivity (kb y); [symmetry|]; apply Hkey; cbn; auto.
  - apply IH; [|done|]; intros; [apply Hkey | apply Heach]; cbn; auto.
Qed.

Lemma map_fst_flat_map {A B C : Type} (g : A -> list (B * C)) (l : list A) :
  map fst (flat_map g l) = flat_map (fun x => map fst (g x)) l.
Proof.
  induction l as [|a l IH]; [reflexivity|].
  cbn [flat_map]. by rewrite map_app, IH.
Qed.

Lemma through_key (dir q : Pathlib.path) (n : string) (rest : list string) :
  through dir n q rest ->
  nth (length (Pathlib.parts dir)) (Pathlib.parts q) "" = n.
Proof.
  intros (_ & -> & _). rewrite app_nth2 by lia. by rewrite Nat.sub_diag.
Qed.

Lemma joinpath_inj (d : Pathlib.path) (n1 n2 : string) :
  Pathlib.joinpath d n1 = Pathlib.joinpath d n2 -> n1 = n2.
Proof.
  unfold Pathlib.joinpath. intros [= Heq].
  apply app_inv_head in Heq. congruence.
Qed.

(** The listing of a directory whose entries are well-formed, given what
    is known below each entry: the shape of the paths, and no path
    twice. *)
Lemma scan_dir_props (d : Pathlib.path) (cs : list Fs.entry) :
  Forall (fun c => forall dir, wf_entry c = true ->
            (forall q e, In (q, e) (Fs.below dir c) ->
               exists rest, rest <> []
                 /\ through dir (Fs.entry_name c) q rest)
            /\ NoDup (map fst (Fs.below dir c))) cs ->
  NoDup (map Fs.entry_name cs) ->
  forallb wf_entry cs = true ->
  (forall q e, In (q, e) (Fs.scan_dir Fs.below d cs) ->
     exists c rest, In c cs /\ through d (Fs.entry_name c) q rest)
  /\ NoDup (map fst (Fs.scan_dir Fs.below d cs)).
Proof.
  intros IH Hnames Hwf. rewrite Forall_forall in IH.
  rewrite forallb_forall in Hwf.
  assert (forall c q e, In c cs -> In (q, e) (Fs.below d c) ->
            exists rest, rest <> []
              /\ through d (Fs.entry_name c) q rest) as Hbelow.
  { intros c q e Hc Hin.
    apply (proj1 (IH c (proj2 (list_elem_of_In _ _) Hc) d (Hwf c Hc))
             q e Hin). }
  assert (forall c, In c cs ->
            through d (Fs.entry_name c)
              (Pathlib.joinpath d (Fs.entry_name c)) []) as Hhere.
  { intros c Hc. split; [done|]. split; [done|].
    constructor; [|constructor]. apply wf_entry_name. by apply Hwf. }
  split.
  - intros q e Hin. unfold Fs.scan_dir in Hin.
    apply in_app_iff in Hin as [Hin|Hin].
    + apply in_map_iff in Hin as (c & [= <- <-] & Hc).
      exists c, []. auto.
    + apply in_flat_map in Hin as (c & Hc & Hin).
      destruct (Hbelow c q e Hc Hin) as (rest & _ & Hthrough). eauto.
  - unfold Fs.scan_dir. rewrite map_app, map_map. cbn [fst].
    apply NoDup_app. split; [|split].
    + rewrite <- (map_map Fs.entry_name (Pathlib.joinpath d)).
      apply NoDup_fmap_2_strong; [|done].
      intros n1 n2 _ _. apply joinpath_inj.
    + intros q Hq Hq'. apply list_elem_of_In in Hq, Hq'.
      apply in_map_iff in Hq as (c & <- & Hc).
      apply in_map_iff in Hq' as ([q' e] & Heq & Hin). cbn in Heq. subst q'.
      apply in_flat_map in Hin as (c' & Hc' & Hin).
      destruct (Hbelow c' _ e Hc' Hin) as (rest & Hrest & _ & Hparts & _).
      cbn [Pathlib.joinpath Pathlib.parts] in Hparts.
      apply app_inv_head in Hparts. injection Hparts as _ Hnil.
      by destruct rest.
    + rewrite map_fst_flat_map.
      apply (NoDup_flat_map_key _ Fs.entry_name
               (fun q => nth (length (Pathlib.parts d)) (Pathlib.parts q) ""));
        [|done|].
      * intros c q Hc Hq. apply in_map_iff in Hq as ([q' e] & Heq & Hin).
        cbn in Heq. subst q'.
        destruct (Hbelow c q e Hc Hin) as (rest & _ & Hthrough).
        by apply (through_key d q _ rest).
      * intros c Hc.
        apply (IH c (proj2 (list_elem_of_In _ _) Hc) d (Hwf c Hc)).
Qed.

Lemma below_props (c : Fs.entry) :
  forall dir, wf_entry c = true ->
    (forall q e, In (q, e) (Fs.below dir c) ->
       exists rest, rest <> [] /\ through dir (Fs.entry_name c) q rest)
    /\ NoDup (map fst (Fs.below dir c)).
Proof.
  induction c as [n|n children IH] using entry_induction; intros dir Hwf.
  - split; [intros q e []|constructor].
  - cbn [wf_entry] in Hwf. apply andb_true_iff in Hwf as [Hwf Hall].
    apply andb_true_iff in Hwf as [Hn Hnames].
    apply bool_decide_eq_true in Hnames.
    destruct (scan_dir_props (Pathlib.joinpath dir n) children IH Hnames Hall)
      as [Hshape Hnd].
    cbn [Fs.below]. split; [|done].
    intros q e Hin.
    destruct (Hshape q e Hin) as (c & rest & _ & Hroot & Hparts & Hproper).
    exists (Fs.entry_name c :: rest). split; [done|].
    split; [done|]. split.
    + rewrite Hparts. cbn [Pathlib.joinpath Pathlib.parts Fs.entry_name].
      by rewrite <- List.app_assoc.
    + constructor; [by apply valid_name_proper | done].
Qed.

Lemma to_str_inj (q1 q2 : Pathlib.path) :
  Pathlib.root q1 = Pathlib.root q2 ->
  Pathlib.parts q1 <> [] -> Pathlib.parts q2 <> [] ->
  Forall proper (Pathlib.parts q1) -> Forall proper (Pathlib.parts q2) ->
  Pathlib.to_str q1 = Pathlib.to_str q2 ->
  q1 = q2.
Proof.
  destruct q1 as [r1 ps1], q2 as [r2 ps2]. cbn [Pathlib.root Pathlib.parts].
  intros <- Hne1 Hne2 Hp1 Hp2 Heq.
  rewrite !to_str_parts in Heq by done.
  apply (inj (String.append r1)) in Heq.
  apply (f_equal Pathlib.components) in Heq.
  rewrite !components_join in Heq by done. by subst.
Qed.

(** On a well-formed directory the traversal yields no path string
    twice. *)
Lemma rglob_no_duplicates (directory : string) (es : list Fs.entry) :
  wf_tree es = true ->
  NoDup (map Pathlib.to_str (Fs.rglob (Pathlib.parse directory) es)).
Proof.
  intros Hwf. apply andb_true_iff in Hwf as [Hnames Hall].
  apply bool_decide_eq_true in Hnames.
  assert (Forall (fun c => forall dir, wf_entry c = true ->
            (forall q e, In (q, e) (Fs.below dir c) ->
               exists rest, rest <> []
                 /\ through dir (Fs.entry_name c) q rest)
            /\ NoDup (map fst (Fs.below dir c))) es) as IH.
  { apply Forall_forall. intros c _. apply below_props. }
  destruct (scan_dir_props (Pathlib.parse directory) es IH Hnames Hall)
    as [Hshape Hnd].
  unfold Fs.rglob, Fs.rglob_entries.
  apply NoDup_fmap_2_strong; [|done].
  assert (forall q,
            q ∈ map fst (Fs.scan_dir Fs.below (Pathlib.parse directory) es) ->
            Pathlib.root q = Pathlib.root (Pathlib.parse directory)
            /\ Pathlib.parts q <> []
            /\ Forall proper (Pathlib.parts q)) as Hq.
  { intros q Hin. apply list_elem_of_In, in_map_iff in Hin
      as ([q' e] & Heq & Hin). cbn in Heq. subst q'.
    destruct (Hshape q e Hin) as (c & rest & _ & Hroot & Hparts & Hproper).
    split; [done|]. rewrite Hparts. split.
    - by destruct (Pathlib.parts (Pathlib.parse directory)).
    - apply Forall_app. split; [|done].
      rewrite parse_parts. apply components_proper. }
  intros q1 q2 H1 H2 Heq.
  destruct (Hq q1 H1) as (Hr1 & Hn1 & Hp1).
  destruct (Hq q2 H2) as (Hr2 & Hn2 & Hp2).
  apply to_str_inj; try done. congruence.
Qed.

Lemma found_no_duplicates (E : env) (directory : string)
    (pattern : option Re.re) (ignore : option string) (found : list string) :
  wf_tree (listing E directory) = true ->
  get_files_recursive E directory (option_map Compiled pattern) ignore None
  = Return found ->
  NoDup found.
Proof.
  intros Hwf.
  assert (forall r,
    get_files_recursive E directory (Some (Compiled r)) ignore None
    = Return found -> NoDup found) as Hr.
  { intros r. rewrite get_files_recursive_compiled. intros [= <-].
    cbn zeta.
    pose proof (rglob_no_duplicates directory (listing E directory) Hwf).
    destruct ignore; repeat apply NoDup_filter; done. }
  destruct pattern as [r|]; cbn [option_map]; [apply Hr|].
  rewrite get_files_recursive_default. apply Hr.
Qed.

(** X14. On a well-formed directory (the names in each directory are
    pairwise distinct and proper), discovery with a compiled pattern and
    no transform returns no path twice. *)
Theorem discovery_no_duplicates (E : env) (directory : string)
    (pattern : option Re.re) (ignore : option string) :
  wf_tree (listing E directory) = true ->
  exists found,
    get_files_recursive E directory (option_map Compiled pattern) ignore None
    = Return found
    /\ NoDup found.
Proof.
  intros Hwf.
  destruct (get_files_recursive_returns E directory pattern ignore)
    as [found Hfound].
  exists found. split; [done|].
  by apply (found_no_duplicates E directory pattern ignore).
Qed.

Lemma discovery_no_duplicates_witness :
  exists found,
    get_files_recursive clips_env "d" None None None = Return found
    /\ NoDup found.
Proof.
  apply (discovery_no_duplicates clips_env "d" None None).
  reflexivity.
Defined.

(** X15. On a well-formed directory, one run of the [transcribe] command
    calls [transcribe_file] at most once for each path, whatever the
    flags and whatever the executable and the engine do. *)
Theorem transcribe_at_most_once (E : env) (directory ignore model : string)
    (force climode : bool) (w : world) :
  wf_tree (listing E directory) = true ->
  exists r w' t,
    transcribe E directory None ignore model force climode w = (r, w')
    /\ trace w' = trace w ++ t
    /\ NoDup (attempts t).
Proof.
  intros Hwf.
  destruct (discovery_default_pattern_returns E directory (Some ignore))
    as [found Hfound].
  pose proof (found_no_duplicates E directory None (Some ignore) found Hwf
                Hfound) as Hnd.
  destruct (for_each_transcribe_file E model force climode found w)
    as (r & w' & t & Hrun & Ht & Hr).
  exists r, w', t.
  unfold transcribe, bind at 1, lift. cbn [option_map]. rewrite Hfound.
  split; [done|]. split; [done|].
  destruct r as [u|e]; [by rewrite Hr|].
  destruct Hr as (done_ & f & rest & -> & ->).
  apply NoDup_app in Hnd as (Hd & Hdisj & Hf).
  apply NoDup_cons in Hf as [_ _].
  apply NoDup_app. split; [done|]. split; [|apply NoDup_singleton].
  intros x Hx Hx'. apply list_elem_of_singleton in Hx' as ->.
  apply (Hdisj f Hx). by left.
Qed.

Lemma transcribe_at_most_once_witness :
  exists r w' t,
    transcribe failing_env "." None ".cmproj" "base.en" true true empty_world
    = (r, w')
    /\ trace w' = trace empty_world ++ t
    /\ NoDup (attempts t).
Proof.
  apply (transcribe_at_most_once failing_env "." ".cmproj" "base.en" true
           true empty_world).
  reflexivity.
Defined.
